(** * score.js: parse, validate and rank scored JSON records

    A shallow embedding of [score.js] (the whole program: [parseDataFile],
    [validateScoreAndRecord], [getHighestRecords], [main]) together with
    the ECMAScript built-ins it calls, and the properties of the
    parse-validate-rank pipeline.

    - Module [JS]: the built-ins, written after ECMA-262: strings as
      sequences of UTF-16 code units, [trim], [split], [indexOf],
      [substring], Number values and subtraction, [parseInt], [isNaN],
      [Array.prototype.slice], the contract of [Array.prototype.sort]
      (an engine is free in its algorithm, not in its result) and
      [JSON.parse].
    - Module [Score]: the functions of [score.js]. Being asynchronous
      adds nothing to what they compute: no callback awaits, so the lines
      are validated in order and [process.exit] ends the run at the first
      line that is not valid.
    - The vocabulary of the properties, and example data.
    - Facts about the built-ins and about the program.
    - The properties of the pipeline, C1 to C10. *)

From Stdlib Require Import String Ascii ZArith List Bool Lia.
From Stdlib Require Import Permutation Sorted.
Import ListNotations.
Open Scope Z_scope.
Set Warnings "-register-all".

Module JS.

(** ** Strings *)

(** A JavaScript string is a finite sequence of 16-bit code units. *)
Definition jsstring := list Z.

(** An ASCII literal as a JavaScript string. *)
Definition js (s : string) : jsstring :=
  map (fun a => Z.of_N (N_of_ascii a)) (list_ascii_of_string s).

(** [WhiteSpace] and [LineTerminator] code units:
    what [trim] and [parseInt] strip. *)
Definition isWhiteSpace (c : Z) : bool :=
  ((9 <=? c) && (c <=? 13))            (* TAB LF VT FF CR *)
  || (c =? 32) || (c =? 160)           (* SP, NBSP *)
  || (c =? 5760)                       (* U+1680 *)
  || ((8192 <=? c) && (c <=? 8202))    (* U+2000 .. U+200A *)
  || (c =? 8232) || (c =? 8233)        (* LS, PS *)
  || (c =? 8239) || (c =? 8287)        (* U+202F, U+205F *)
  || (c =? 12288) || (c =? 65279).     (* U+3000, U+FEFF *)

Fixpoint trimStart (s : jsstring) : jsstring :=
  match s with
  | c :: s' => if isWhiteSpace c then trimStart s' else s
  | [] => []
  end.

Definition trimEnd (s : jsstring) : jsstring := rev (trimStart (rev s)).

(** [String.prototype.trim]. *)
Definition trim (s : jsstring) : jsstring := trimEnd (trimStart s).

(** [String.prototype.split] with a separator of one code unit. *)
Fixpoint split (s : jsstring) (sep : Z) : list jsstring :=
  match s with
  | [] => [[]]
  | c :: s' =>
      if c =? sep then [] :: split s' sep
      else match split s' sep with
           | w :: ws => (c :: w) :: ws
           | [] => [[c]]
           end
  end.

(** [String.prototype.indexOf] for a search string of one code unit:
    the index of its first occurrence, or [-1]. *)
Fixpoint indexOf (s : jsstring) (c : Z) : Z :=
  match s with
  | [] => -1
  | x :: s' =>
      if x =? c then 0
      else let i := indexOf s' c in if i <? 0 then -1 else i + 1
  end.

(** [String.prototype.substring start end] on integer arguments; [None] is
    an omitted [end].  Both bounds are clamped to [0 .. length] and swapped
    when out of order. *)
Definition substring (s : jsstring) (start : Z) (end_ : option Z) : jsstring :=
  let len := Z.of_nat (length s) in
  let clamp i := Z.min (Z.max i 0) len in
  let finalStart := clamp start in
  let finalEnd := match end_ with None => len | Some e => clamp e end in
  let from := Z.min finalStart finalEnd in
  let to := Z.max finalStart finalEnd in
  firstn (Z.to_nat (to - from)) (skipn (Z.to_nat from) s).

(** ** Numbers *)

(** The Number values this program can produce: every score and count is
    the result of [parseInt], so it is NaN, an infinity, negative zero or
    an integer-valued double. [Fin z] is the double whose value is [z]. *)
Inductive Number : Type :=
| NaN
| PosInf
| NegInf
| NegZero
| Fin (z : Z).

(** Round a non-negative integer to the nearest integer that has a 53-bit
    significand, ties to even (IEEE 754 binary64, exponent unbounded). *)
Definition roundSignificand (a : Z) : Z :=
  if a <? 2 ^ 53 then a
  else
    let k := Z.log2 a - 52 in
    let q := Z.shiftr a k in
    let r := Z.land a (Z.ones k) in
    let half := 2 ^ (k - 1) in
    let q' := if (half <? r) || ((r =? half) && Z.odd q) then q + 1 else q in
    Z.shiftl q' k.

(** The Number value of a mathematical integer (the conversion of a
    mathematical value to a Number in ECMA-262): round to nearest, ties to even, overflowing to
    an infinity from [2^1024] on. *)
Definition toNumber (z : Z) : Number :=
  let m := roundSignificand (Z.abs z) in
  if 2 ^ 1024 <=? m then (if z <? 0 then NegInf else PosInf)
  else Fin (Z.sgn z * m).

Definition isNaN (x : Number) : bool :=
  match x with NaN => true | _ => false end.

(** [x < 0], [x > 0] and [x <= 0] on Numbers; false on NaN. *)
Definition ltZero (x : Number) : bool :=
  match x with
  | NegInf => true
  | Fin z => z <? 0
  | _ => false
  end.

Definition gtZero (x : Number) : bool :=
  match x with
  | PosInf => true
  | Fin z => 0 <? z
  | _ => false
  end.

Definition leZero (x : Number) : bool :=
  match x with
  | NegInf | NegZero => true
  | Fin z => z <=? 0
  | _ => false
  end.

(** [x - y] (Number::subtract): the exact difference, rounded. *)
Definition sub (x y : Number) : Number :=
  match x, y with
  | NaN, _ | _, NaN => NaN
  | PosInf, PosInf | NegInf, NegInf => NaN
  | PosInf, _ | _, NegInf => PosInf
  | NegInf, _ | _, PosInf => NegInf
  | NegZero, NegZero => Fin 0
  | NegZero, Fin b => if b =? 0 then NegZero else toNumber (- b)
  | Fin a, NegZero => toNumber a
  | Fin a, Fin b => toNumber (a - b)
  end.

(** [x < y] and [x <= y] on Numbers: false when an operand is NaN, and
    [-0] equal to [+0]. *)
Definition lessThan (x y : Number) : bool :=
  match x, y with
  | NaN, _ | _, NaN => false
  | _, NegInf | PosInf, _ => false
  | NegInf, _ | _, PosInf => true
  | NegZero, NegZero => false
  | NegZero, Fin b => 0 <? b
  | Fin a, NegZero => a <? 0
  | Fin a, Fin b => a <? b
  end.

Definition lessEq (x y : Number) : bool :=
  negb (isNaN x) && negb (isNaN y) && negb (lessThan y x).

(** [x === y] on Numbers: NaN equals nothing, [-0] equals [+0]. *)
Definition strictEquals (x y : Number) : bool :=
  negb (isNaN x) && negb (isNaN y) && negb (lessThan x y) && negb (lessThan y x).

(** ** parseInt *)

Definition digitValue (c : Z) : option Z :=
  if (48 <=? c) && (c <=? 57) then Some (c - 48)          (* 0-9 *)
  else if (97 <=? c) && (c <=? 122) then Some (c - 87)    (* a-z *)
  else if (65 <=? c) && (c <=? 90) then Some (c - 55)     (* A-Z *)
  else None.

Definition radixDigit (R c : Z) : option Z :=
  match digitValue c with
  | Some d => if d <? R then Some d else None
  | None => None
  end.

(** The values of the longest prefix of radix-[R] digits. *)
Fixpoint digitsPrefix (R : Z) (s : jsstring) : list Z :=
  match s with
  | c :: s' =>
      match radixDigit R c with
      | Some d => d :: digitsPrefix R s'
      | None => []
      end
  | [] => []
  end.

Definition mathInt (R : Z) (ds : list Z) : Z :=
  fold_left (fun acc d => acc * R + d) ds 0.

Definition ToInt32 (r : Z) : Z := (r + 2 ^ 31) mod 2 ^ 32 - 2 ^ 31.

(** [parseInt string radix]; [None] is an omitted radix.
    Digits beyond the 20th are kept (the exact choice, as V8 makes it). *)
Definition parseInt (inputString : jsstring) (radix : option Z) : Number :=
  let s := trimStart inputString in
  let sign := match s with
              | c :: _ => if c =? 45 then -1 else 1            (* "-" *)
              | [] => 1
              end in
  let s := match s with
           | c :: s' => if (c =? 43) || (c =? 45) then s' else s   (* "+", "-" *)
           | [] => s
           end in
  let R := match radix with Some r => ToInt32 r | None => 0 end in
  if negb (R =? 0) && ((R <? 2) || (36 <? R)) then NaN
  else
    let stripPrefix := (R =? 0) || (R =? 16) in
    let R := if R =? 0 then 10 else R in
    let sR :=
      if stripPrefix then
        match s with
        | a :: b :: s' =>                                  (* "0x", "0X" *)
            if (a =? 48) && ((b =? 120) || (b =? 88)) then (s', 16) else (s, R)
        | _ => (s, R)
        end
      else (s, R) in
    match digitsPrefix (snd sR) (fst sR) with
    | [] => NaN
    | ds =>
        let m := mathInt (snd sR) ds in
        if m =? 0 then (if sign =? -1 then NegZero else Fin 0)
        else toNumber (sign * m)
    end.

(** ** Arrays *)

(** [ToIntegerOrInfinity] of a Number argument. *)
Inductive IntegerOrInfinity : Type :=
| MinusInfinity
| PlusInfinity
| Integer (z : Z).

Definition ToIntegerOrInfinity (x : Number) : IntegerOrInfinity :=
  match x with
  | NaN | NegZero => Integer 0
  | PosInf => PlusInfinity
  | NegInf => MinusInfinity
  | Fin z => Integer z
  end.

(** A relative index of [slice] made absolute: a negative one counts from
    the end, and the result is clamped to [0 .. len]. *)
Definition relativeIndex (len : Z) (r : IntegerOrInfinity) : Z :=
  match r with
  | MinusInfinity => 0
  | PlusInfinity => len
  | Integer z => if z <? 0 then Z.max (len + z) 0 else Z.min z len
  end.

(** [Array.prototype.slice start end]: a new array;
    [None] is an omitted [end]. *)
Definition Array_slice {A : Type} (O : list A) (start : Number) (end_ : option Number)
  : list A :=
  let len := Z.of_nat (length O) in
  let k := relativeIndex len (ToIntegerOrInfinity start) in
  let final := match end_ with
               | Some e => relativeIndex len (ToIntegerOrInfinity e)
               | None => len
               end in
  let count := Z.max (final - k) 0 in
  firstn (Z.to_nat count) (skipn (Z.to_nat k) O).

(** [Array.prototype.map] builds a new array too. *)
Definition Array_map {A B : Type} (O : list A) (callbackfn : A -> B) : list B :=
  map callbackfn O.

Definition Array_filter {A : Type} (O : list A) (callbackfn : A -> bool) : list A :=
  filter callbackfn O.

Section Sorting.
Context {A : Type} (comparefn : A -> A -> Number).

(** [SortCompare] with a comparator given: a NaN result counts as [+0]. *)
Definition SortCompare (x y : A) : Number :=
  let v := comparefn x y in
  if isNaN v then Fin 0 else v.

(** The relations written [a <CF b], [a >CF b] and [a =CF b] in
    ECMA-262. *)
Definition ltCF (a b : A) : bool := ltZero (SortCompare a b).
Definition gtCF (a b : A) : bool := gtZero (SortCompare a b).
Definition eqCF (a b : A) : bool := negb (ltCF a b) && negb (gtCF a b).

(** [comparefn] is a consistent comparator for the values in [S]. *)
Record Consistent (S : A -> Prop) : Prop := {
  eqCF_refl : forall a, S a -> eqCF a a = true;
  eqCF_sym : forall a b, S a -> S b -> eqCF a b = true -> eqCF b a = true;
  eqCF_trans : forall a b c, S a -> S b -> S c ->
    eqCF a b = true -> eqCF b c = true -> eqCF a c = true;
  ltCF_trans : forall a b c, S a -> S b -> S c ->
    ltCF a b = true -> ltCF b c = true -> ltCF a c = true;
  gtCF_trans : forall a b c, S a -> S b -> S c ->
    gtCF a b = true -> gtCF b c = true -> gtCF a c = true
}.

(** What [Array.prototype.sort] guarantees of the array [new] it leaves
    in place of [old]: the same elements, none before an element that is
    less than it, and equal elements in their old order (the sort is
    stable, since ECMAScript 2019). *)
Record SortOrder (old new : list A) : Prop := {
  sort_permutation : Permutation old new;
  sort_sorted : StronglySorted (fun x y => ltCF y x = false) new;
  sort_stable : forall x, In x old -> filter (eqCF x) new = filter (eqCF x) old
}.

(** A reference implementation: insertion from the right, the inserted
    element moving past those it is greater than. *)
Fixpoint insert (x : A) (l : list A) : list A :=
  match l with
  | [] => [x]
  | y :: l' => if gtCF x y then y :: insert x l' else x :: l
  end.

Definition insertionSort (l : list A) : list A := fold_right insert [] l.

(** A second one: insertion from the left, the inserted element moving
    past those it is not less than. *)
Fixpoint insertAfter (x : A) (l : list A) : list A :=
  match l with
  | [] => [x]
  | y :: l' => if ltCF x y then x :: l else y :: insertAfter x l'
  end.

Definition insertionSortLeft (l : list A) : list A :=
  fold_left (fun acc x => insertAfter x acc) l [].
End Sorting.

(** An engine is an implementation of [Array.prototype.sort]: the
    algorithm is its own, the result is as ECMA-262 requires whenever the
    comparator is consistent for the elements of the array. *)
Class Engine : Type := {
  Array_sort : forall {A : Type}, list A -> (A -> A -> Number) -> list A;
  Array_sort_order :
    forall {A : Type} (O : list A) (comparefn : A -> A -> Number),
      Consistent comparefn (fun a => In a O) ->
      SortOrder comparefn O (Array_sort O comparefn)
}.

(** ** JSON *)

(** A value that [JSON.parse] returns. A number is kept as the literal
    that denotes it; an object keeps its properties in creation order. *)
Inductive JSON : Type :=
| JNull
| JBool (b : bool)
| JNumber (literal : jsstring)
| JString (s : jsstring)
| JArray (elements : list JSON)
| JObject (properties : list (jsstring * JSON)).

Definition Object := list (jsstring * JSON).

Fixpoint eqb (s t : jsstring) : bool :=
  match s, t with
  | [], [] => true
  | c :: s', d :: t' => (c =? d) && eqb s' t'
  | _, _ => false
  end.

(** [P in O]: the object has the property. *)
Fixpoint HasProperty (O : Object) (P : jsstring) : bool :=
  match O with
  | [] => false
  | (k, _) :: O' => eqb k P || HasProperty O' P
  end.

(** [O.P]: the value of the property, [None] for [undefined]. *)
Fixpoint Get (O : Object) (P : jsstring) : option JSON :=
  match O with
  | [] => None
  | (k, v) :: O' => if eqb k P then Some v else Get O' P
  end.

(** [CreateDataProperty]: a repeated key keeps its place and takes the
    new value. *)
Fixpoint CreateDataProperty (O : Object) (P : jsstring) (V : JSON) : Object :=
  match O with
  | [] => [(P, V)]
  | (k, v) :: O' =>
      if eqb k P then (k, V) :: O' else (k, v) :: CreateDataProperty O' P V
  end.

Definition typeof (v : JSON) : string :=
  match v with
  | JNull | JArray _ | JObject _ => "object"
  | JBool _ => "boolean"
  | JNumber _ => "number"
  | JString _ => "string"
  end.

Definition Array_isArray (v : JSON) : bool :=
  match v with JArray _ => true | _ => false end.

Definition isNull (v : JSON) : bool :=
  match v with JNull => true | _ => false end.

(** *** JSON.parse

    The JSON grammar (ECMA-404) recognised one code unit at a time: a
    lexer mode for the token being read and, for the values being built,
    a stack of the arrays and objects that are still open. *)

Inductive Frame : Type :=
| InArray (elements : list JSON)                     (* last element first *)
| InObject (properties : Object) (key : option jsstring).

Inductive Expect : Type :=
| ExpectValue
| ExpectValueOrClose      (* after "[" *)
| ExpectKeyOrClose        (* after "{" *)
| ExpectKey               (* after "," in an object *)
| ExpectColon
| ExpectCommaOrClose
| ExpectEnd (v : JSON).   (* the text's value is complete *)

Definition Parser : Type := list Frame * Expect.

Definition acceptValue (v : JSON) (stack : list Frame) : option Parser :=
  match stack with
  | [] => Some ([], ExpectEnd v)
  | InArray es :: st => Some (InArray (v :: es) :: st, ExpectCommaOrClose)
  | InObject ps (Some k) :: st =>
      Some (InObject (CreateDataProperty ps k v) None :: st, ExpectCommaOrClose)
  | InObject _ None :: _ => None
  end.

(** A complete string, number or literal. *)
Definition feedScalar (v : JSON) (p : Parser) : option Parser :=
  let '(stack, expect) := p in
  match expect with
  | ExpectValue | ExpectValueOrClose => acceptValue v stack
  | ExpectKeyOrClose | ExpectKey =>
      match v, stack with
      | JString k, InObject ps None :: st => Some (InObject ps (Some k) :: st, ExpectColon)
      | _, _ => None
      end
  | _ => None
  end.

(** One of the six structural characters. *)
Definition feedPunctuator (c : Z) (p : Parser) : option Parser :=
  let '(stack, expect) := p in
  if c =? 91 then                                       (* [ *)
    match expect with
    | ExpectValue | ExpectValueOrClose => Some (InArray [] :: stack, ExpectValueOrClose)
    | _ => None
    end
  else if c =? 123 then                                 (* { *)
    match expect with
    | ExpectValue | ExpectValueOrClose => Some (InObject [] None :: stack, ExpectKeyOrClose)
    | _ => None
    end
  else if c =? 93 then                                  (* ] *)
    match expect, stack with
    | ExpectValueOrClose, InArray es :: st
    | ExpectCommaOrClose, InArray es :: st => acceptValue (JArray (rev es)) st
    | _, _ => None
    end
  else if c =? 125 then                                 (* } *)
    match expect, stack with
    | ExpectKeyOrClose, InObject ps None :: st
    | ExpectCommaOrClose, InObject ps None :: st => acceptValue (JObject ps) st
    | _, _ => None
    end
  else if c =? 44 then                                  (* , *)
    match expect, stack with
    | ExpectCommaOrClose, InArray _ :: _ => Some (stack, ExpectValue)
    | ExpectCommaOrClose, InObject _ _ :: _ => Some (stack, ExpectKey)
    | _, _ => None
    end
  else if c =? 58 then                                  (* : *)
    match expect with
    | ExpectColon => Some (stack, ExpectValue)
    | _ => None
    end
  else None.

Inductive NumberPhase : Type :=
| AfterMinus | AfterZero | InInteger | AfterPoint | InFraction
| AfterE | AfterESign | InExponent.

Definition isDigit (c : Z) : bool := (48 <=? c) && (c <=? 57).

Definition numberNext (ph : NumberPhase) (c : Z) : option NumberPhase :=
  let point := c =? 46 in
  let e := (c =? 101) || (c =? 69) in
  match ph with
  | AfterMinus =>
      if c =? 48 then Some AfterZero else if isDigit c then Some InInteger else None
  | AfterZero =>
      if point then Some AfterPoint else if e then Some AfterE else None
  | InInteger =>
      if isDigit c then Some InInteger
      else if point then Some AfterPoint else if e then Some AfterE else None
  | AfterPoint => if isDigit c then Some InFraction else None
  | InFraction =>
      if isDigit c then Some InFraction else if e then Some AfterE else None
  | AfterE =>
      if isDigit c then Some InExponent
      else if (c =? 43) || (c =? 45) then Some AfterESign else None
  | AfterESign | InExponent => if isDigit c then Some InExponent else None
  end.

Definition numberComplete (ph : NumberPhase) : bool :=
  match ph with
  | AfterZero | InInteger | InFraction | InExponent => true
  | _ => false
  end.

Inductive Lexer : Type :=
| Idle
| InLiteral (rest : jsstring) (v : JSON)           (* in true, false or null *)
| InString (s : jsstring)                          (* last code unit first *)
| InEscape (s : jsstring)                          (* after a backslash *)
| InUnicode (n : nat) (code : Z) (s : jsstring)    (* n hex digits to come *)
| InNumber (ph : NumberPhase) (literal : jsstring).

Definition isJSONWhiteSpace (c : Z) : bool :=
  (c =? 9) || (c =? 10) || (c =? 13) || (c =? 32).

Definition isPunctuator (c : Z) : bool :=
  (c =? 91) || (c =? 123) || (c =? 93) || (c =? 125) || (c =? 44) || (c =? 58).

Definition escapeChar (c : Z) : option Z :=
  if (c =? 34) || (c =? 92) || (c =? 47) then Some c    (* quote, backslash, slash *)
  else if c =? 98 then Some 8                           (* b *)
  else if c =? 102 then Some 12                         (* f *)
  else if c =? 110 then Some 10                         (* n *)
  else if c =? 114 then Some 13                         (* r *)
  else if c =? 116 then Some 9                          (* t *)
  else None.

Definition idle (p : option Parser) : option (Lexer * Parser) :=
  option_map (fun p => (Idle, p)) p.

(** The first code unit of a token. *)
Definition startToken (c : Z) (p : Parser) : option (Lexer * Parser) :=
  if isJSONWhiteSpace c then Some (Idle, p)
  else if isPunctuator c then idle (feedPunctuator c p)
  else if c =? 34 then Some (InString [], p)
  else if c =? 45 then Some (InNumber AfterMinus [c], p)
  else if c =? 48 then Some (InNumber AfterZero [c], p)
  else if isDigit c then Some (InNumber InInteger [c], p)
  else if c =? 116 then Some (InLiteral (js "rue") (JBool true), p)
  else if c =? 102 then Some (InLiteral (js "alse") (JBool false), p)
  else if c =? 110 then Some (InLiteral (js "ull") JNull, p)
  else None.

Definition step (st : option (Lexer * Parser)) (c : Z) : option (Lexer * Parser) :=
  match st with
  | None => None
  | Some (Idle, p) => startToken c p
  | Some (InLiteral rest v, p) =>
      match rest with
      | [x] => if c =? x then idle (feedScalar v p) else None
      | x :: rest' => if c =? x then Some (InLiteral rest' v, p) else None
      | [] => None
      end
  | Some (InString s, p) =>
      if c =? 34 then idle (feedScalar (JString (rev s)) p)
      else if c =? 92 then Some (InEscape s, p)
      else if c <? 32 then None
      else Some (InString (c :: s), p)
  | Some (InEscape s, p) =>
      match escapeChar c with
      | Some x => Some (InString (x :: s), p)
      | None => if c =? 117 then Some (InUnicode 4 0 s, p) else None
      end
  | Some (InUnicode n code s, p) =>
      match radixDigit 16 c, n with
      | Some d, 1%nat => Some (InString (code * 16 + d :: s), p)
      | Some d, S n' => Some (InUnicode n' (code * 16 + d) s, p)
      | _, _ => None
      end
  | Some (InNumber ph lit, p) =>
      match numberNext ph c with
      | Some ph' => Some (InNumber ph' (c :: lit), p)
      | None =>
          if numberComplete ph then
            match feedScalar (JNumber (rev lit)) p with
            | Some p' => startToken c p'
            | None => None
            end
          else None
      end
  end.

Definition finish (st : option (Lexer * Parser)) : option JSON :=
  match st with
  | Some (Idle, ([], ExpectEnd v)) => Some v
  | Some (InNumber ph lit, p) =>
      if numberComplete ph then
        match feedScalar (JNumber (rev lit)) p with
        | Some ([], ExpectEnd v) => Some v
        | _ => None
        end
      else None
  | _ => None
  end.

(** [JSON.parse text]: the value, or [None] where it throws a SyntaxError. *)
Definition JSON_parse (text : jsstring) : option JSON :=
  finish (fold_left step text (Some (Idle, ([], ExpectValue)))).

End JS.

(** * The program *)

Module Score.
Import JS.

(** The error of a failed [fs.readFile]. *)
Record Error : Type := { code : string; message : string }.

(** What [fs.readFile path 'utf8'] hands to its callback: an error, or the
    text of the file. *)
Definition FileSystem : Type := jsstring -> Error + jsstring.

(** How a computation completes: it returns, it throws, or it has written
    a line to standard error and ended the process with [process.exit]. *)
Inductive Completion (A : Type) : Type :=
| Normal (a : A)
| Throw (error : Error)
| Exit (status : Z) (stderr : string).
Arguments Normal {A} a.
Arguments Throw {A} error.
Arguments Exit {A} status stderr.

Definition bind {A B : Type} (c : Completion A) (k : A -> Completion B) : Completion B :=
  match c with
  | Normal a => k a
  | Throw error => Throw error
  | Exit status stderr => Exit status stderr
  end.

Notation "x <- c ;; k" := (bind c (fun x => k))
  (at level 61, c at next level, right associativity).

(** A settled promise: rejected with an error, or fulfilled with a value. *)
Definition Promise (A : Type) : Type := Error + A.

(** The call of an [async] function with no [await] in it: the body runs
    at once, what it returns or throws settles the promise returned. *)
Definition async {A : Type} (body : Completion A) : Completion (Promise A) :=
  match body with
  | Normal a => Normal (inr a)
  | Throw error => Normal (inl error)
  | Exit status stderr => Exit status stderr
  end.

(** [Array.prototype.map] with a callback that can end the process: the
    elements are visited in order. *)
Fixpoint mapM {A B : Type} (callbackfn : A -> Completion B) (O : list A)
  : Completion (list B) :=
  match O with
  | [] => Normal []
  | x :: O' =>
      y <- callbackfn x ;;
      ys <- mapM callbackfn O' ;;
      Normal (y :: ys)
  end.

(** [Promise.all]: the values in the order of the promises, or the first
    rejection. *)
Fixpoint Promise_all {A : Type} (promises : list (Promise A)) : Promise (list A) :=
  match promises with
  | [] => inr []
  | inl error :: _ => inl error
  | inr a :: promises' =>
      match Promise_all promises' with
      | inl error => inl error
      | inr values => inr (a :: values)
      end
  end.

(** The object literals [{ score, record }] of the program. *)
Record Scored (R : Type) : Type := { score : Number; record : R }.
Arguments score {R} _.
Arguments record {R} _.

(** A validated line: [record] is the parsed JSON dictionary. *)
Definition ScoredRecord : Type := Scored Object.

(** An entry of the result: [record] is the dictionary's [id]. *)
Definition RankedEntry : Type := Scored (option JSON).

Definition quote : string := String (ascii_of_nat 34) EmptyString.

(** [validateScoreAndRecord], lines 51-77. *)
Definition validateScoreAndRecord (scoreStr recordStr : jsstring)
  : Completion ScoredRecord :=
  let score := parseInt scoreStr (Some 10) in
  if isNaN score then Exit 2 "Invalid score: not an integer"
  else
    match JSON_parse recordStr with
    | None => Exit 2 "Invalid record: not a valid JSON dictionary"
    | Some record =>
        if negb (String.eqb (typeof record) "object")
           || Array_isArray record || isNull record
        then Exit 2 "Invalid record: not a JSON dictionary"
        else
          match record with
          | JObject record =>
              if negb (HasProperty record (js "id"))
              then Exit 2 ("Invalid record: missing " ++ quote ++ "id" ++ quote ++ " field")
              else Normal {| score := score; record := record |}
          | _ =>
              (* not reached: an object that is neither an array nor null
                 is a dictionary *)
              Exit 2 "Invalid record: not a JSON dictionary"
          end
    end.

(** The two tokens of a line, lines 27-29. *)
Definition colonIndex (line : jsstring) : Z := indexOf line 58.

Definition scoreStr (line : jsstring) : jsstring :=
  trim (substring line 0 (Some (colonIndex line))).

Definition recordStr (line : jsstring) : jsstring :=
  trim (substring line (colonIndex line + 1) None).

(** The callback of [lines.map], lines 26-34. *)
Definition parseLine (line : jsstring) : Completion ScoredRecord :=
  r <- validateScoreAndRecord (scoreStr line) (recordStr line) ;;
  Normal {| score := score r; record := record r |}.

(** The non-empty trimmed lines of the file, lines 21-24. *)
Definition lines (data : jsstring) : list jsstring :=
  Array_filter (Array_map (split data 10) trim) (fun line => negb (eqb line [])).

(** What [fs.readFile]'s callback does with the text, lines 21-38. *)
Definition parseData (data : jsstring) : Completion (list ScoredRecord) :=
  linePromises <- mapM (fun line => async (parseLine line)) (lines data) ;;
  match Promise_all linePromises with
  | inr records => Normal records        (* resolve(records) *)
  | inl error => Throw error             (* reject(error) *)
  end.

(** [parseDataFile], lines 14-41: the promise it returns is settled as the
    completion says, [Throw] being a rejection. *)
Definition parseDataFile (fs : FileSystem) (filePath : jsstring)
  : Completion (list ScoredRecord) :=
  match fs filePath with
  | inl error => Throw error
  | inr data => parseData data
  end.

(** What the process leaves behind: its exit status, and the value whose
    JSON text it printed to standard output or the line it wrote to
    standard error. *)
Inductive Output : Type :=
| Stdout (highestRecords : list RankedEntry)
| Stderr (message : string).

Inductive Process : Type :=
| Exited (status : Z) (output : Output).

Section OnEngine.
Context {engine : Engine}.

(** [getHighestRecords], lines 91-96. [sort] works in place: the
    function returns the array [records] as the call leaves it, and
    the new array that is its result. *)
Definition getHighestRecords (records : list ScoredRecord) (count : Number)
  : list ScoredRecord * list RankedEntry :=
  let records := Array_sort records (fun a b => sub (score b) (score a)) in
  (records,
   Array_map (Array_slice records (Fin 0) (Some count))
     (fun record => {| score := score record;
                       record := Get (Score.record record) (js "id") |})).

(** The [try] block of [main] and its [catch], lines 117-131. *)
Definition tryBlock (fs : FileSystem) (filePath : jsstring) (count : Number) : Process :=
  match parseDataFile fs filePath with
  | Normal records =>
      let highestRecords := snd (getHighestRecords records count) in
      Exited 0 (Stdout highestRecords)
  | Throw error =>
      if String.eqb (code error) "ENOENT"
      then Exited 1 (Stderr "File not found")
      else Exited 2 (Stderr ("An error occurred: " ++ message error))
  | Exit status stderr => Exited status (Stderr stderr)
  end.

(** [main], lines 102-132, on [process.argv] and the file system. *)
Definition main (argv : list jsstring) (fs : FileSystem) : Process :=
  match Array_slice argv (Fin 2) None with
  | [filePath; countStr] =>
      let count := parseInt countStr None in
      if isNaN count || leZero count
      then Exited 2 (Stderr "Invalid count value")
      else tryBlock fs filePath count
  | _ => Exited 1 (Stderr "Usage: node score.js <data_file> <count>")
  end.
End OnEngine.

End Score.

Import JS Score.

(** * The vocabulary of the properties *)

(** ** The error kinds *)

(** The error kinds, as the program reports them: the line it writes to
    standard error and its exit status. *)
Definition InvalidScore {A : Type} : Completion A :=
  Exit 2 "Invalid score: not an integer".
Definition InvalidRecordJSON {A : Type} : Completion A :=
  Exit 2 "Invalid record: not a valid JSON dictionary".
Definition InvalidRecordShape {A : Type} : Completion A :=
  Exit 2 "Invalid record: not a JSON dictionary".
Definition InvalidRecordMissingId {A : Type} : Completion A :=
  Exit 2 ("Invalid record: missing " ++ quote ++ "id" ++ quote ++ " field").
Definition InvalidCount : Process :=
  Exited 2 (Stderr "Invalid count value").

(** ** Records, scores and tokens *)

(** The scores of validated records are never NaN. *)
Definition validScore (r : ScoredRecord) : Prop := isNaN (score r) = false.

Abbreviation descending := (fun a b : ScoredRecord => sub (score b) (score a)).

(** The callback of the final [map]: a record's score, and its [id]. *)
Abbreviation toEntry :=
  (fun record : ScoredRecord =>
     {| score := score record; record := Get (Score.record record) (js "id") |}).

(** Non-increasing scores, first to last. *)
Definition nonIncreasing {R : Type} (l : list (Scored R)) : Prop :=
  StronglySorted (fun x y => lessEq (score y) (score x) = true) l.

(** A parsed value has the key. *)
Definition hasKey (v : JSON) (key : jsstring) : bool :=
  match v with
  | JObject o => HasProperty o key
  | _ => false
  end.

(** The leading decimal digits of a string, and the integer that a string
    of decimal digits denotes. *)
Fixpoint leadingDigits (s : jsstring) : jsstring :=
  match s with
  | c :: s' => if isDigit c then c :: leadingDigits s' else []
  | [] => []
  end.

Definition decimalValue (digits : jsstring) : Z :=
  fold_left (fun n c => 10 * n + (c - 48)) digits 0.

Definition negative (s : jsstring) : bool :=
  match s with
  | c :: _ => c =? 45
  | [] => false
  end.

Definition unsigned (s : jsstring) : jsstring :=
  match s with
  | c :: s' => if (c =? 43) || (c =? 45) then s' else s
  | [] => s
  end.

(** Leading-prefix integer parsing in base 10: the integer denoted by
    the sign, if any, and the decimal digits that the token begins with,
    leading white space apart; [None] when there is no digit there. *)
Definition integerPrefix (token : jsstring) : option Z :=
  let t := trimStart token in
  match leadingDigits (unsigned t) with
  | [] => None
  | digits => Some ((if negative t then -1 else 1) * decimalValue digits)
  end.

(** The string is a decimal numeral of a positive integer. *)
Definition denotesPositiveInteger (s : jsstring) : bool :=
  negb (eqb s []) && forallb isDigit s && (0 <? decimalValue s).

(** What [parseInt] makes of a sign and the integer of the digits. *)
Definition signedNumber (neg : bool) (m : Z) : Number :=
  if m =? 0 then (if neg then NegZero else Fin 0)
  else toNumber ((if neg then -1 else 1) * m).

Definition hexPrefixed (s : jsstring) : bool :=
  match s with
  | a :: b :: _ => (a =? 48) && ((b =? 120) || (b =? 88))
  | _ => false
  end.

(** ** Example data *)

Definition newline : string := String (ascii_of_nat 10) EmptyString.

(** A line [score: {"id": "x"}]. *)
Definition lineOf (score id : string) : string :=
  score ++ ": {" ++ quote ++ "id" ++ quote ++ ": " ++ quote ++ id ++ quote ++ "}".

(** The file of the first example: scores 10, 5 and 20, with a blank line. *)
Definition example1 : jsstring :=
  js (lineOf "10" "a" ++ newline ++ lineOf "5" "b" ++ newline
      ++ "   " ++ newline ++ lineOf "20" "c").

Definition ENOENT : Error :=
  {| code := "ENOENT"; message := "ENOENT: no such file or directory" |}.

(** A disk that holds one file. *)
Definition disk (name data : jsstring) : FileSystem :=
  fun path => if eqb path name then inr data else inl ENOENT.

Definition argvOf (filePath count : string) : list jsstring :=
  [js "node"; js "score.js"; js filePath; js count].

Definition idOf (id : string) : Object := [(js "id", JString (js id))].

Definition records1 : list ScoredRecord :=
  [ {| score := Fin 10; record := idOf "a" |};
    {| score := Fin 5; record := idOf "b" |};
    {| score := Fin 20; record := idOf "c" |} ].

(** Records with a tie: two of score 10, one of score 20 between them. *)
Definition recordsTied : list ScoredRecord :=
  [ {| score := Fin 10; record := idOf "a" |};
    {| score := Fin 20; record := idOf "b" |};
    {| score := Fin 10; record := idOf "c" |} ].

(** * Facts about the built-ins *)

(** ** Numbers *)

Lemma roundSignificand_small (a : Z) : a < 2 ^ 53 -> roundSignificand a = a.
Proof.
  intros Ha. unfold roundSignificand.
  destruct (Z.ltb_spec a (2 ^ 53)); [reflexivity | lia].
Qed.

Lemma roundSignificand_pos (a : Z) : 0 < a -> 0 < roundSignificand a.
Proof.
  intros Ha. unfold roundSignificand.
  destruct (Z.ltb_spec a (2 ^ 53)) as [Hlt | Hge]; [exact Ha |].
  assert (H53 : 53 <= Z.log2 a).
  { change 53 with (Z.log2 (2 ^ 53)). apply Z.log2_le_mono. exact Hge. }
  set (k := Z.log2 a - 52).
  assert (Hk : 0 <= k) by (unfold k; lia).
  assert (Hq : 2 ^ 52 <= Z.shiftr a k).
  { rewrite Z.shiftr_div_pow2 by exact Hk.
    apply Z.div_le_lower_bound; [apply Z.pow_pos_nonneg; lia |].
    rewrite <- Z.pow_add_r by lia.
    replace (k + 52) with (Z.log2 a) by (unfold k; lia).
    apply Z.log2_spec. exact Ha. }
  assert (H52 : 0 < 2 ^ 52) by (apply Z.pow_pos_nonneg; lia).
  rewrite Z.shiftl_mul_pow2 by exact Hk.
  apply Z.mul_pos_pos; [| apply Z.pow_pos_nonneg; lia].
  destruct ((2 ^ (k - 1) <? Z.land a (Z.ones k))
            || ((Z.land a (Z.ones k) =? 2 ^ (k - 1)) && Z.odd (Z.shiftr a k))); lia.
Qed.

(** Rounding never takes a value from [2^53] on below [2^53]. *)
Lemma roundSignificand_large (a : Z) : 2 ^ 53 <= a -> 2 ^ 53 <= roundSignificand a.
Proof.
  intros Ha. unfold roundSignificand.
  destruct (Z.ltb_spec a (2 ^ 53)) as [Hlt | Hge]; [lia |].
  assert (H0 : 0 < a) by (assert (0 < 2 ^ 53) by (apply Z.pow_pos_nonneg; lia); lia).
  assert (H53 : 53 <= Z.log2 a).
  { change 53 with (Z.log2 (2 ^ 53)). apply Z.log2_le_mono. exact Hge. }
  set (k := Z.log2 a - 52).
  assert (Hk : 1 <= k) by (unfold k; lia).
  assert (Hq : 2 ^ 52 <= Z.shiftr a k).
  { rewrite Z.shiftr_div_pow2 by lia.
    apply Z.div_le_lower_bound; [apply Z.pow_pos_nonneg; lia |].
    rewrite <- Z.pow_add_r by lia.
    replace (k + 52) with (Z.log2 a) by (unfold k; lia).
    apply Z.log2_spec. exact H0. }
  assert (H52 : 0 < 2 ^ 52) by (apply Z.pow_pos_nonneg; lia).
  assert (H2k : 2 ^ 1 <= 2 ^ k) by (apply Z.pow_le_mono_r; lia).
  rewrite Z.shiftl_mul_pow2 by lia.
  replace (2 ^ 53) with (2 ^ 52 * 2 ^ 1) by (rewrite <- Z.pow_add_r by lia; reflexivity).
  apply Z.mul_le_mono_nonneg; try lia.
  destruct ((2 ^ (k - 1) <? Z.land a (Z.ones k))
            || ((Z.land a (Z.ones k) =? 2 ^ (k - 1)) && Z.odd (Z.shiftr a k))); lia.
Qed.


Lemma toNumber_not_NaN (z : Z) : isNaN (toNumber z) = false.
Proof.
  unfold toNumber.
  destruct (2 ^ 1024 <=? roundSignificand (Z.abs z)); [destruct (z <? 0) |]; reflexivity.
Qed.

Lemma gtZero_toNumber (z : Z) : gtZero (toNumber z) = (0 <? z).
Proof.
  unfold toNumber.
  destruct (Z.ltb_spec 0 z) as [Hpos | Hneg].
  - pose proof (roundSignificand_pos (Z.abs z) ltac:(lia)) as Hr.
    destruct (2 ^ 1024 <=? roundSignificand (Z.abs z)).
    + destruct (Z.ltb_spec z 0); [lia | reflexivity].
    + simpl. apply Z.ltb_lt. rewrite Z.sgn_pos by exact Hpos. lia.
  - destruct (Z.eq_dec z 0) as [-> | Hnz].
    + reflexivity.
    + pose proof (roundSignificand_pos (Z.abs z) ltac:(lia)) as Hr.
      destruct (2 ^ 1024 <=? roundSignificand (Z.abs z)).
      * destruct (Z.ltb_spec z 0); [reflexivity | lia].
      * simpl. apply Z.ltb_ge. rewrite Z.sgn_neg by lia. lia.
Qed.

Lemma ltZero_toNumber (z : Z) : ltZero (toNumber z) = (z <? 0).
Proof.
  unfold toNumber.
  destruct (Z.ltb_spec z 0) as [Hneg | Hpos].
  - pose proof (roundSignificand_pos (Z.abs z) ltac:(lia)) as Hr.
    destruct (2 ^ 1024 <=? roundSignificand (Z.abs z)).
    + reflexivity.
    + simpl. apply Z.ltb_lt. rewrite Z.sgn_neg by exact Hneg. lia.
  - destruct (Z.eq_dec z 0) as [-> | Hnz].
    + reflexivity.
    + pose proof (roundSignificand_pos (Z.abs z) ltac:(lia)) as Hr.
      destruct (2 ^ 1024 <=? roundSignificand (Z.abs z)).
      * reflexivity.
      * simpl. apply Z.ltb_ge. rewrite Z.sgn_pos by lia. lia.
Qed.

(** Integers of magnitude up to [2^53] are Numbers as they are. *)
Lemma toNumber_exact (z : Z) : Z.abs z <= 2 ^ 53 -> toNumber z = Fin z.
Proof.
  intros Hz. unfold toNumber.
  assert (Hr : roundSignificand (Z.abs z) = Z.abs z).
  { destruct (Z.eq_dec (Z.abs z) (2 ^ 53)) as [-> | Hne].
    - reflexivity.
    - apply roundSignificand_small. lia. }
  rewrite Hr.
  assert (H53 : 2 ^ 53 < 2 ^ 1024) by (apply Z.pow_lt_mono_r; lia).
  destruct (Z.leb_spec (2 ^ 1024) (Z.abs z)); [lia |].
  f_equal. rewrite Z.mul_comm. apply Z.abs_sgn.
Qed.

(** The sign of a difference decides the order of its operands. *)
Lemma gtZero_sub (x y : Number) :
  isNaN x = false -> isNaN y = false -> gtZero (sub x y) = lessThan y x.
Proof.
  destruct x as [| | | | a], y as [| | | | b]; simpl; intros Hx Hy;
    try discriminate; try reflexivity.
  - destruct (Z.eqb_spec b 0) as [-> | Hb]; [reflexivity |].
    rewrite gtZero_toNumber. destruct (Z.ltb_spec 0 (- b)), (Z.ltb_spec b 0); lia || reflexivity.
  - apply gtZero_toNumber.
  - rewrite gtZero_toNumber. destruct (Z.ltb_spec 0 (a - b)), (Z.ltb_spec b a); lia || reflexivity.
Qed.

Lemma ltZero_sub (x y : Number) :
  isNaN x = false -> isNaN y = false -> ltZero (sub x y) = lessThan x y.
Proof.
  destruct x as [| | | | a], y as [| | | | b]; simpl; intros Hx Hy;
    try discriminate; try reflexivity.
  - destruct (Z.eqb_spec b 0) as [-> | Hb]; [reflexivity |].
    rewrite ltZero_toNumber. destruct (Z.ltb_spec (- b) 0), (Z.ltb_spec 0 b); lia || reflexivity.
  - apply ltZero_toNumber.
  - rewrite ltZero_toNumber. destruct (Z.ltb_spec (a - b) 0), (Z.ltb_spec a b); lia || reflexivity.
Qed.

Lemma sign_cases (v : Number) :
  (ltZero v = true /\ gtZero v = false)
  \/ (ltZero v = false /\ gtZero v = false)
  \/ (ltZero v = false /\ gtZero v = true).
Proof.
  destruct v as [| | | | z]; simpl; auto.
  destruct (Z.ltb_spec z 0), (Z.ltb_spec 0 z); auto; lia.
Qed.

Ltac number_cases :=
  repeat match goal with
         | x : Number |- _ => destruct x
         end;
  simpl in *; try discriminate; try reflexivity;
  repeat match goal with
         | H : (_ <? _) = true |- _ => apply Z.ltb_lt in H
         | H : (_ <? _) = false |- _ => apply Z.ltb_ge in H
         | |- (_ <? _) = true => apply Z.ltb_lt
         | |- (_ <? _) = false => apply Z.ltb_ge
         end;
  try lia.

Lemma lessThan_irrefl (x : Number) : lessThan x x = false.
Proof. number_cases. Qed.

Lemma lessThan_trans (x y z : Number) :
  lessThan x y = true -> lessThan y z = true -> lessThan x z = true.
Proof. intros; number_cases. Qed.

(** Not being less either way is transitive on Numbers that are not NaN. *)
Lemma lessThan_neither_trans (x y z : Number) :
  isNaN y = false ->
  lessThan x y = false -> lessThan y x = false ->
  lessThan y z = false -> lessThan z y = false ->
  lessThan x z = false.
Proof. intros; number_cases. Qed.


Lemma leZero_toNumber (z : Z) : leZero (toNumber z) = (z <=? 0).
Proof.
  pose proof (gtZero_toNumber z) as Hg. pose proof (toNumber_not_NaN z) as Hn.
  destruct (toNumber z) as [| | | | v] eqn:Hz; simpl in *; try discriminate.
  - destruct (Z.ltb_spec 0 z), (Z.leb_spec z 0); try lia; congruence.
  - destruct (Z.ltb_spec 0 z), (Z.leb_spec z 0); try lia; congruence.
  - unfold toNumber in Hz.
    destruct (2 ^ 1024 <=? roundSignificand (Z.abs z)); [destruct (z <? 0) |];
      discriminate Hz.
  - destruct (Z.ltb_spec 0 v), (Z.ltb_spec 0 z), (Z.leb_spec v 0), (Z.leb_spec z 0);
      try lia; try reflexivity; congruence.
Qed.

(** ** Sorting with a consistent comparator *)

Section SortFacts.
Context {A : Type} (comparefn : A -> A -> Number).

Abbreviation lt := (ltCF comparefn).
Abbreviation gt := (gtCF comparefn).
Abbreviation tie := (eqCF comparefn).

(** Exactly one of [a <CF b], [a =CF b], [a >CF b] holds. *)
Inductive Trichotomy (a b : A) : Prop :=
| IsLess : lt a b = true -> tie a b = false -> gt a b = false -> Trichotomy a b
| IsEqual : lt a b = false -> tie a b = true -> gt a b = false -> Trichotomy a b
| IsGreater : lt a b = false -> tie a b = false -> gt a b = true -> Trichotomy a b.

Lemma trichotomy (a b : A) : Trichotomy a b.
Proof.
  destruct (sign_cases (SortCompare comparefn a b)) as [[Hl Hg] | [[Hl Hg] | [Hl Hg]]];
    [apply IsLess | apply IsEqual | apply IsGreater];
    unfold eqCF, ltCF, gtCF; rewrite ?Hl, ?Hg; reflexivity.
Qed.

Section OnValues.
Variable S : A -> Prop.
Hypothesis consistent : Consistent comparefn S.

Lemma lt_irrefl (a : A) : S a -> lt a a = false.
Proof.
  intros Ha. pose proof (eqCF_refl _ _ consistent a Ha) as He.
  destruct (trichotomy a a); congruence.
Qed.

Lemma lt_gt (a b : A) : S a -> S b -> lt a b = true -> gt b a = true.
Proof.
  intros Ha Hb Hlt.
  destruct (trichotomy b a) as [Hl _ _ | _ He _ | _ _ Hg].
  - pose proof (ltCF_trans _ _ consistent a b a Ha Hb Ha Hlt Hl) as Haa.
    rewrite lt_irrefl in Haa by exact Ha. discriminate.
  - pose proof (eqCF_sym _ _ consistent b a Hb Ha He) as He'.
    destruct (trichotomy a b); congruence.
  - exact Hg.
Qed.

Lemma gt_lt (a b : A) : S a -> S b -> gt a b = true -> lt b a = true.
Proof.
  intros Ha Hb Hgt.
  destruct (trichotomy b a) as [Hl _ _ | _ He _ | _ _ Hg].
  - exact Hl.
  - pose proof (eqCF_sym _ _ consistent b a Hb Ha He) as He'.
    destruct (trichotomy a b); congruence.
  - pose proof (gtCF_trans _ _ consistent a b a Ha Hb Ha Hgt Hg) as Haa.
    pose proof (eqCF_refl _ _ consistent a Ha) as He.
    destruct (trichotomy a a); congruence.
Qed.


Lemma not_gt_not_lt (a b : A) : S a -> S b -> gt a b = false -> lt b a = false.
Proof.
  intros Ha Hb Hn. destruct (lt b a) eqn:Hl; [| reflexivity].
  rewrite (lt_gt b a Hb Ha Hl) in Hn. discriminate.
Qed.

(** [a] may stand before [b], and [b] before [c]: then [a] before [c]. *)
Lemma before_trans (a b c : A) :
  S a -> S b -> S c -> lt b a = false -> lt c b = false -> lt c a = false.
Proof.
  intros Ha Hb Hc Hba Hcb.
  destruct (lt c a) eqn:Hca; [exfalso | reflexivity].
  destruct (trichotomy c b) as [Hl _ _ | _ He _ | _ _ Hg]; [congruence | |].
  - (* c = b, c < a *)
    destruct (trichotomy b a) as [Hl' _ _ | _ He' _ | _ _ Hg']; [congruence | |].
    + pose proof (eqCF_trans _ _ consistent c b a Hc Hb Ha He He') as E.
      destruct (trichotomy c a); congruence.
    + (* b > a, so a < b; c < a: c < b *)
      pose proof (gt_lt b a Hb Ha Hg') as Hab.
      pose proof (ltCF_trans _ _ consistent c a b Hc Ha Hb Hca Hab) as Hcb'.
      congruence.
  - (* c > b, so b < c; c < a: b < a *)
    pose proof (gt_lt c b Hc Hb Hg) as Hbc.
    pose proof (ltCF_trans _ _ consistent b c a Hb Hc Ha Hbc Hca) as Hba'.
    congruence.
Qed.

(** Two values that may stand in either order are equal for the
    comparator. *)
Lemma before_antisym (a b : A) :
  S a -> S b -> lt b a = false -> lt a b = false -> tie a b = true.
Proof.
  intros Ha Hb Hba Hab.
  destruct (trichotomy a b) as [Hl _ _ | _ He _ | _ _ Hg]; [congruence | exact He |].
  rewrite (gt_lt a b Ha Hb Hg) in Hba. discriminate.
Qed.

(** No value is equal to both of two values that are not equal. *)
Lemma eq_not_both (x a b : A) :
  S x -> S a -> S b -> gt a b = true -> tie x a = true -> tie x b = false.
Proof.
  intros Hx Ha Hb Hg Hxa.
  destruct (tie x b) eqn:Hxb; [exfalso | reflexivity].
  pose proof (eqCF_sym _ _ consistent x a Hx Ha Hxa) as Hax.
  pose proof (eqCF_trans _ _ consistent a x b Ha Hx Hb Hax Hxb) as Hab.
  destruct (trichotomy a b); congruence.
Qed.
End OnValues.

Abbreviation before := (fun x y : A => lt y x = false).

Lemma Consistent_weaken (S T : A -> Prop) :
  (forall a, T a -> S a) -> Consistent comparefn S -> Consistent comparefn T.
Proof.
  intros Hsub [R Sy Te Tl Tg]. split; intros.
  - apply R; auto.
  - apply Sy; auto.
  - apply (Te a b c); auto.
  - apply (Tl a b c); auto.
  - apply (Tg a b c); auto.
Qed.

(** *** The sorted, stable arrangement is unique *)

Lemma sorted_stable_unique (l1 l2 : list A) :
  Consistent comparefn (fun a => In a l1) ->
  Permutation l1 l2 ->
  StronglySorted before l1 ->
  StronglySorted before l2 ->
  (forall x, In x l1 -> filter (tie x) l1 = filter (tie x) l2) ->
  l1 = l2.
Proof.
  revert l2. induction l1 as [| a t1 IH]; intros l2 Hc Hp Hs1 Hs2 Hf.
  - symmetry. apply Permutation_nil. exact Hp.
  - destruct l2 as [| b t2].
    + apply Permutation_sym, Permutation_nil in Hp. discriminate.
    + assert (Ha : In a (a :: t1)) by (left; reflexivity).
      assert (Hb : In b (a :: t1)).
      { apply (Permutation_in b (Permutation_sym Hp)). left; reflexivity. }
      assert (Ha2 : In a (b :: t2)) by (apply (Permutation_in a Hp); exact Ha).
      inversion Hs1 as [| ? ? Hs1' Hall1]; subst.
      inversion Hs2 as [| ? ? Hs2' Hall2]; subst.
      assert (Hab : a = b).
      { destruct Hb as [Hb' | Hb']; [exact Hb' |].
        destruct Ha2 as [Ha2' | Ha2']; [symmetry; exact Ha2' |].
        assert (Hba : lt b a = false).
        { rewrite Forall_forall in Hall1. apply Hall1. exact Hb'. }
        assert (Hab' : lt a b = false).
        { rewrite Forall_forall in Hall2. apply Hall2. exact Ha2'. }
        pose proof (before_antisym _ Hc a b Ha (or_intror Hb') Hba Hab') as He.
        pose proof (Hf a Ha) as Hfa. simpl in Hfa.
        rewrite (eqCF_refl _ _ Hc a Ha), He in Hfa.
        injection Hfa as Heq _. exact Heq. }
      subst b. f_equal.
      apply IH.
      * apply (Consistent_weaken (fun x => In x (a :: t1))); [| exact Hc].
        intros x Hx. right. exact Hx.
      * apply (Permutation_cons_inv Hp).
      * exact Hs1'.
      * exact Hs2'.
      * intros x Hx. pose proof (Hf x (or_intror Hx)) as Hfx. simpl in Hfx.
        destruct (tie x a); [injection Hfx as Hfx |]; exact Hfx.
Qed.

Theorem SortOrder_unique (old new1 new2 : list A) :
  Consistent comparefn (fun a => In a old) ->
  SortOrder comparefn old new1 -> SortOrder comparefn old new2 -> new1 = new2.
Proof.
  intros Hc [Hp1 Hs1 Hf1] [Hp2 Hs2 Hf2].
  assert (Hin : forall a, In a new1 -> In a old).
  { intros a Ha. apply (Permutation_in a (Permutation_sym Hp1)). exact Ha. }
  apply sorted_stable_unique.
  - apply (Consistent_weaken (fun a => In a old)); [exact Hin | exact Hc].
  - apply (Permutation_trans (Permutation_sym Hp1) Hp2).
  - exact Hs1.
  - exact Hs2.
  - intros x Hx. rewrite Hf1, Hf2 by (apply Hin; exact Hx). reflexivity.
Qed.

(** *** Insertion from the right gives it *)

Lemma insert_permutation (x : A) (l : list A) :
  Permutation (x :: l) (insert comparefn x l).
Proof.
  induction l as [| y l IH]; simpl.
  - apply Permutation_refl.
  - destruct (gt x y).
    + apply (Permutation_trans (perm_swap y x l)). apply perm_skip. exact IH.
    + apply Permutation_refl.
Qed.

Section Insertion.
Variable S : A -> Prop.
Hypothesis consistent : Consistent comparefn S.

Lemma insert_sorted (x : A) (l : list A) :
  S x -> Forall S l ->
  StronglySorted before l -> StronglySorted before (insert comparefn x l).
Proof.
  intros Hx. induction l as [| y l IH]; intros HS Hs; simpl.
  - constructor; constructor.
  - inversion HS as [| ? ? Hy HS']; subst.
    inversion Hs as [| ? ? Hs' Hall]; subst.
    destruct (gt x y) eqn:Hg.
    + constructor; [apply IH; assumption |].
      rewrite Forall_forall in *. intros z Hz.
      apply (Permutation_in z (Permutation_sym (insert_permutation x l))) in Hz.
      destruct Hz as [<- | Hz]; [| apply Hall; exact Hz].
      destruct (trichotomy x y); congruence.
    + constructor; [exact Hs |].
      assert (Hyx : lt y x = false) by (apply (not_gt_not_lt S); assumption).
      constructor; [exact Hyx |].
      rewrite Forall_forall in *. intros z Hz.
      apply (before_trans S consistent x y z); auto.
Qed.

Lemma insert_stable (x z : A) (l : list A) :
  S x -> S z -> Forall S l ->
  filter (tie z) (insert comparefn x l) = filter (tie z) (x :: l).
Proof.
  intros Hx Hz. induction l as [| y l IH]; intros HS; [reflexivity |].
  inversion HS as [| ? ? Hy HS']; subst.
  simpl. destruct (gt x y) eqn:Hg; [| reflexivity].
  simpl. rewrite (IH HS'). simpl.
  destruct (tie z x) eqn:Hzx; [| reflexivity].
  rewrite (eq_not_both S consistent z x y Hz Hx Hy Hg Hzx). reflexivity.
Qed.

Lemma insertionSort_permutation (l : list A) :
  Permutation l (insertionSort comparefn l).
Proof.
  induction l as [| x l IH]; simpl.
  - apply Permutation_refl.
  - apply (Permutation_trans (perm_skip x IH)). apply insert_permutation.
Qed.

Lemma insertionSort_Forall (l : list A) :
  Forall S l -> Forall S (insertionSort comparefn l).
Proof.
  intros HS. rewrite Forall_forall in *. intros a Ha. apply HS.
  apply (Permutation_in a (Permutation_sym (insertionSort_permutation l))). exact Ha.
Qed.

Lemma insertionSort_sorted (l : list A) :
  Forall S l -> StronglySorted before (insertionSort comparefn l).
Proof.
  induction l as [| x l IH]; intros HS; simpl.
  - constructor.
  - inversion HS; subst.
    apply insert_sorted; auto using insertionSort_Forall.
Qed.

Lemma insertionSort_stable (z : A) (l : list A) :
  S z -> Forall S l ->
  filter (tie z) (insertionSort comparefn l) = filter (tie z) l.
Proof.
  intros Hz. induction l as [| x l IH]; intros HS; [reflexivity |].
  inversion HS; subst. simpl.
  rewrite insert_stable by auto using insertionSort_Forall.
  simpl. rewrite IH by assumption. reflexivity.
Qed.
End Insertion.

Theorem insertionSort_order (l : list A) :
  Consistent comparefn (fun a => In a l) ->
  SortOrder comparefn l (insertionSort comparefn l).
Proof.
  intros Hc.
  assert (HS : Forall (fun a => In a l) l) by (apply Forall_forall; auto).
  split.
  - apply insertionSort_permutation.
  - apply (insertionSort_sorted _ Hc). exact HS.
  - intros x Hx. apply (insertionSort_stable _ Hc); assumption.
Qed.

(** *** Insertion from the left gives it too *)

Lemma insertAfter_permutation (x : A) (l : list A) :
  Permutation (l ++ [x]) (insertAfter comparefn x l).
Proof.
  induction l as [| y l IH]; simpl.
  - apply Permutation_refl.
  - destruct (lt x y).
    + apply Permutation_sym. apply (Permutation_cons_append (y :: l) x).
    + apply perm_skip. exact IH.
Qed.

Section InsertionLeft.
Variable S : A -> Prop.
Hypothesis consistent : Consistent comparefn S.

(** [x] is less than [y], and [y] may stand before [w]: [x] is less
    than [w]. *)
Lemma lt_before (x y w : A) :
  S x -> S y -> S w -> lt x y = true -> lt w y = false -> lt x w = true.
Proof.
  intros Hx Hy Hw Hxy Hwy.
  destruct (trichotomy x w) as [Hl _ _ | Hnl He _ | Hnl _ Hg]; [exact Hl | |]; exfalso.
  - pose proof (eqCF_sym _ _ consistent x w Hx Hw He) as Hwx.
    destruct (trichotomy w y) as [Hl' _ _ | _ He' _ | _ _ Hg']; [congruence | |].
    + pose proof (eqCF_trans _ _ consistent x w y Hx Hw Hy He He') as E.
      destruct (trichotomy x y); congruence.
    + pose proof (gt_lt S consistent w y Hw Hy Hg') as Hyw.
      pose proof (ltCF_trans _ _ consistent x y w Hx Hy Hw Hxy Hyw) as Hxw.
      congruence.
  - pose proof (gt_lt S consistent x w Hx Hw Hg) as Hwx.
    pose proof (ltCF_trans _ _ consistent w x y Hw Hx Hy Hwx Hxy) as Hwy'.
    congruence.
Qed.

Lemma insertAfter_sorted (x : A) (l : list A) :
  S x -> Forall S l ->
  StronglySorted before l -> StronglySorted before (insertAfter comparefn x l).
Proof.
  intros Hx. induction l as [| y l IH]; intros HS Hs; simpl.
  - constructor; constructor.
  - inversion HS as [| ? ? Hy HS']; subst.
    inversion Hs as [| ? ? Hs' Hall]; subst.
    destruct (lt x y) eqn:Hl.
    + constructor; [exact Hs |].
      assert (Hyx : lt y x = false).
      { pose proof (lt_gt S consistent x y Hx Hy Hl).
        destruct (trichotomy y x); congruence. }
      constructor; [exact Hyx |].
      rewrite Forall_forall in *. intros z Hz.
      apply (before_trans S consistent x y z); auto.
    + constructor; [apply IH; assumption |].
      rewrite Forall_forall in *. intros z Hz.
      apply (Permutation_in z (Permutation_sym (insertAfter_permutation x l))) in Hz.
      apply in_app_or in Hz. destruct Hz as [Hz | [<- | []]]; [apply Hall; exact Hz | exact Hl].
Qed.

Lemma insertAfter_stable (x z : A) (l : list A) :
  S x -> S z -> Forall S l -> StronglySorted before l ->
  filter (tie z) (insertAfter comparefn x l) = filter (tie z) (l ++ [x]).
Proof.
  intros Hx Hz. induction l as [| y l IH]; intros HS Hs; [reflexivity |].
  inversion HS as [| ? ? Hy HS']; subst.
  inversion Hs as [| ? ? Hs' Hall]; subst.
  simpl. destruct (lt x y) eqn:Hl.
  - assert (Hnone : tie z x = true -> forall w, In w (y :: l) -> tie z w = false).
    { intros Hzx w Hw.
      assert (HSw : S w) by (rewrite Forall_forall in HS; apply HS; exact Hw).
      assert (Hxw : lt x w = true).
      { destruct Hw as [<- | Hw]; [exact Hl |].
        rewrite Forall_forall in Hall.
        apply (lt_before x y w); auto. }
      destruct (tie z w) eqn:Hzw; [exfalso | reflexivity].
      pose proof (eqCF_sym _ _ consistent z x Hz Hx Hzx) as Hxz.
      pose proof (eqCF_trans _ _ consistent x z w Hx Hz HSw Hxz Hzw) as E.
      destruct (trichotomy x w); congruence. }
    change (filter (tie z) (x :: (y :: l)) = filter (tie z) ((y :: l) ++ [x])).
    rewrite filter_app.
    remember (y :: l) as rest eqn:Hrest. clear Hrest. simpl.
    destruct (tie z x) eqn:Hzx; [| rewrite app_nil_r; reflexivity].
    assert (Hnil : filter (tie z) rest = []).
    { specialize (Hnone Logic.eq_refl). clear - Hnone.
      induction rest as [| w t IHt]; [reflexivity |].
      simpl. rewrite (Hnone w (or_introl Logic.eq_refl)).
      apply IHt. intros w' Hw'. apply Hnone. right. exact Hw'. }
    rewrite Hnil. reflexivity.
  - simpl. rewrite (IH HS' Hs'). reflexivity.
Qed.

Lemma insertionSortLeft_spec (l acc : list A) :
  Forall S acc -> Forall S l -> StronglySorted before acc ->
  let new := fold_left (fun acc x => insertAfter comparefn x acc) l acc in
  Permutation (acc ++ l) new
  /\ StronglySorted before new
  /\ forall z, S z -> filter (tie z) new = filter (tie z) (acc ++ l).
Proof.
  revert acc. induction l as [| x l IH]; intros acc Hacc Hl Hs; simpl.
  - rewrite app_nil_r. split; [apply Permutation_refl | split; [exact Hs | reflexivity]].
  - inversion Hl as [| ? ? Hx Hl']; subst.
    assert (Hacc' : Forall S (insertAfter comparefn x acc)).
    { rewrite Forall_forall in *. intros a Ha.
      apply (Permutation_in a (Permutation_sym (insertAfter_permutation x acc))) in Ha.
      apply in_app_or in Ha. destruct Ha as [Ha | [<- | []]]; auto. }
    destruct (IH (insertAfter comparefn x acc) Hacc' Hl'
                (insertAfter_sorted x acc Hx Hacc Hs)) as [Hp [Hs' Hf]].
    split; [| split].
    + refine (Permutation_trans _ Hp).
      replace (acc ++ x :: l) with ((acc ++ [x]) ++ l)
        by (rewrite <- app_assoc; reflexivity).
      apply Permutation_app_tail. apply insertAfter_permutation.
    + exact Hs'.
    + intros z Hz. rewrite (Hf z Hz).
      rewrite filter_app, (insertAfter_stable x z acc Hx Hz Hacc Hs), <- filter_app.
      rewrite <- app_assoc. reflexivity.
Qed.
End InsertionLeft.

Theorem insertionSortLeft_order (l : list A) :
  Consistent comparefn (fun a => In a l) ->
  SortOrder comparefn l (insertionSortLeft comparefn l).
Proof.
  intros Hc.
  assert (HS : Forall (fun a => In a l) l) by (apply Forall_forall; auto).
  destruct (insertionSortLeft_spec _ Hc l [] (Forall_nil _) HS (SSorted_nil _))
    as [Hp [Hs Hf]].
  split; [exact Hp | exact Hs | exact Hf].
Qed.

End SortFacts.

(** ** Two engines *)

#[global] Instance insertionRight : Engine := {|
  Array_sort := fun A O comparefn => insertionSort comparefn O;
  Array_sort_order := fun A O comparefn => insertionSort_order comparefn O
|}.

#[global] Instance insertionLeft : Engine := {|
  Array_sort := fun A O comparefn => insertionSortLeft comparefn O;
  Array_sort_order := fun A O comparefn => insertionSortLeft_order comparefn O
|}.

(** On a consistent comparator every engine sorts as insertion does. *)
Lemma Array_sort_insertionSort {engine : Engine} {A : Type}
  (O : list A) (comparefn : A -> A -> Number) :
  Consistent comparefn (fun a => In a O) ->
  Array_sort O comparefn = insertionSort comparefn O.
Proof.
  intros Hc. apply (SortOrder_unique comparefn O); [exact Hc | |].
  - apply Array_sort_order. exact Hc.
  - apply insertionSort_order. exact Hc.
Qed.

(** ** parseInt *)

Lemma isDigit_not_isWhiteSpace (c : Z) : isDigit c = true -> isWhiteSpace c = false.
Proof.
  unfold isDigit, isWhiteSpace. intros H.
  apply andb_true_iff in H. destruct H as [H1 H2].
  apply Z.leb_le in H1. apply Z.leb_le in H2.
  repeat match goal with
         | |- context [?a <=? ?b] => destruct (Z.leb_spec a b); try lia
         | |- context [?a =? ?b] => destruct (Z.eqb_spec a b); try lia
         end; reflexivity.
Qed.

Lemma radixDigit_10 (c : Z) :
  radixDigit 10 c = if isDigit c then Some (c - 48) else None.
Proof.
  unfold radixDigit, digitValue, isDigit.
  repeat (match goal with
          | |- context [?a <=? ?b] => destruct (Z.leb_spec a b)
          | |- context [?a <? ?b] => destruct (Z.ltb_spec a b)
          end; simpl);
    try reflexivity; lia.
Qed.

Lemma digitsPrefix_10 (s : jsstring) :
  digitsPrefix 10 s = map (fun c => c - 48) (leadingDigits s).
Proof.
  induction s as [| c s IH]; simpl; [reflexivity |].
  rewrite radixDigit_10. destruct (isDigit c); simpl; [rewrite IH |]; reflexivity.
Qed.

Lemma mathInt_10 (digits : jsstring) :
  mathInt 10 (map (fun c => c - 48) digits) = decimalValue digits.
Proof.
  unfold mathInt, decimalValue. generalize 0.
  induction digits as [| c digits IH]; intros n; cbn [fold_left map]; [reflexivity |].
  rewrite IH. f_equal. lia.
Qed.

Lemma leadingDigits_all (digits rest : jsstring) :
  forallb isDigit digits = true -> leadingDigits rest = [] ->
  leadingDigits (digits ++ rest) = digits.
Proof.
  intros Hd Hr. induction digits as [| c digits IH]; simpl in *; [exact Hr |].
  apply andb_true_iff in Hd. destruct Hd as [Hc Hd].
  rewrite Hc, (IH Hd). reflexivity.
Qed.


(** [parseInt] in base 10 reads the token's integer prefix. *)
Lemma parseInt_10 (token : jsstring) :
  parseInt token (Some 10)
  = match leadingDigits (unsigned (trimStart token)) with
    | [] => NaN
    | digits => signedNumber (negative (trimStart token)) (decimalValue digits)
    end.
Proof.
  unfold parseInt. change (ToInt32 10) with 10.
  change (10 =? 0) with false. change (10 =? 16) with false.
  change (10 <? 2) with false. change (36 <? 10) with false.
  cbn [negb andb orb fst snd].
  set (t := trimStart token).
  fold (unsigned t).
  assert (Hsign : match t with c :: _ => if c =? 45 then -1 else 1 | [] => 1 end
                  = if negative t then -1 else 1).
  { unfold negative. destruct t as [| c t']; reflexivity. }
  rewrite Hsign, digitsPrefix_10. clear Hsign.
  destruct (leadingDigits (unsigned t)) as [| c ds] eqn:Hds; [reflexivity |].
  cbn [map]. change (c - 48 :: map (fun c => c - 48) ds)
    with (map (fun c => c - 48) (c :: ds)).
  rewrite mathInt_10. unfold signedNumber.
  destruct (negative t); reflexivity.
Qed.

Lemma isNaN_signedNumber (neg : bool) (m : Z) : isNaN (signedNumber neg m) = false.
Proof.
  unfold signedNumber. destruct (m =? 0); [destruct neg; reflexivity |].
  apply toNumber_not_NaN.
Qed.


(** With no radix given, [parseInt] reads hexadecimal digits after [0x]
    and is [parseInt] in base 10 otherwise. *)
Lemma parseInt_default (token : jsstring) :
  parseInt token None
  = if hexPrefixed (unsigned (trimStart token))
    then match digitsPrefix 16 (skipn 2 (unsigned (trimStart token))) with
         | [] => NaN
         | ds => signedNumber (negative (trimStart token)) (mathInt 16 ds)
         end
    else parseInt token (Some 10).
Proof.
  unfold parseInt. change (ToInt32 10) with 10.
  change (0 =? 0) with true. change (10 =? 0) with false. change (10 =? 16) with false.
  change (10 <? 2) with false. change (36 <? 10) with false.
  cbn [negb andb orb fst snd].
  set (t := trimStart token). fold (unsigned t).
  assert (Hsign : match t with c :: _ => if c =? 45 then -1 else 1 | [] => 1 end
                  = if negative t then -1 else 1).
  { unfold negative. destruct t as [| c t']; reflexivity. }
  rewrite Hsign. clear Hsign.
  destruct (unsigned t) as [| a [| b s']]; try reflexivity.
  unfold hexPrefixed.
  destruct ((a =? 48) && ((b =? 120) || (b =? 88))); [| reflexivity].
  cbn [fst snd skipn]. unfold signedNumber.
  destruct (digitsPrefix 16 s'); [reflexivity |].
  destruct (negative t); reflexivity.
Qed.

Lemma mathInt_nonneg (R : Z) (ds : list Z) :
  0 <= R -> Forall (fun d => 0 <= d) ds -> 0 <= mathInt R ds.
Proof.
  intros HR Hds. unfold mathInt.
  assert (H : forall n, 0 <= n -> 0 <= fold_left (fun acc d => acc * R + d) ds n).
  { induction Hds as [| d ds Hd _ IH]; intros n Hn; cbn [fold_left]; [exact Hn |].
    apply IH. nia. }
  apply H. lia.
Qed.

Lemma digitsPrefix_nonneg (R : Z) (s : jsstring) :
  Forall (fun d => 0 <= d) (digitsPrefix R s).
Proof.
  induction s as [| c s IH]; cbn [digitsPrefix]; [constructor |].
  destruct (radixDigit R c) as [d |] eqn:Hd; [| constructor].
  constructor; [| exact IH].
  unfold radixDigit, digitValue in Hd.
  repeat (match type of Hd with
          | context [?a <=? ?b] => destruct (Z.leb_spec a b)
          | context [?a <? ?b] => destruct (Z.ltb_spec a b)
          end; simpl in Hd);
    try discriminate Hd; injection Hd as <-; lia.
Qed.

Lemma rejects_signedNumber_negative (m : Z) :
  0 <= m -> leZero (signedNumber true m) = true.
Proof.
  intros Hm. unfold signedNumber. destruct (Z.eqb_spec m 0); [reflexivity |].
  rewrite leZero_toNumber. apply Z.leb_le. lia.
Qed.

(** A count argument that begins with a minus sign is never accepted. *)
Lemma parseInt_default_negative (token : jsstring) :
  negative (trimStart token) = true ->
  isNaN (parseInt token None) || leZero (parseInt token None) = true.
Proof.
  intros Hneg. rewrite parseInt_default.
  destruct (hexPrefixed (unsigned (trimStart token))).
  - pose proof (digitsPrefix_nonneg 16 (skipn 2 (unsigned (trimStart token)))) as Hds.
    destruct (digitsPrefix 16 (skipn 2 (unsigned (trimStart token)))) as [| d ds];
      [reflexivity |].
    rewrite Hneg, isNaN_signedNumber, rejects_signedNumber_negative; [reflexivity |].
    apply mathInt_nonneg; [lia | exact Hds].
  - rewrite parseInt_10.
    destruct (leadingDigits (unsigned (trimStart token))) as [| c ds] eqn:Hds;
      [reflexivity |].
    rewrite Hneg, isNaN_signedNumber, rejects_signedNumber_negative; [reflexivity |].
    rewrite <- mathInt_10. apply mathInt_nonneg; [lia |].
    rewrite <- Hds, <- digitsPrefix_10. apply digitsPrefix_nonneg.
Qed.

(** A count argument with no integer prefix is not a number. *)
Lemma parseInt_default_no_prefix (token : jsstring) :
  integerPrefix token = None -> parseInt token None = NaN.
Proof.
  unfold integerPrefix. intros Hp. rewrite parseInt_default, parseInt_10.
  destruct (leadingDigits (unsigned (trimStart token))) as [| c ds] eqn:Hds;
    [| discriminate Hp].
  destruct (unsigned (trimStart token)) as [| a [| b s']]; try reflexivity.
  unfold hexPrefixed. destruct (Z.eqb_spec a 48) as [-> | Ha]; [| reflexivity].
  discriminate Hds.
Qed.

(** A count argument that begins with the decimal numeral of a positive
    integer is that integer, as a Number. *)
Lemma parseInt_default_numeral (digits rest : jsstring) :
  denotesPositiveInteger digits = true -> leadingDigits rest = [] ->
  parseInt (digits ++ rest) None = toNumber (decimalValue digits).
Proof.
  unfold denotesPositiveInteger. intros Hd Hrest.
  apply andb_true_iff in Hd. destruct Hd as [Hd Hpos].
  apply andb_true_iff in Hd. destruct Hd as [Hne Hall].
  apply Z.ltb_lt in Hpos.
  destruct digits as [| c ds]; [discriminate Hne |]. clear Hne.
  assert (Hc : isDigit c = true).
  { cbn [forallb] in Hall. apply andb_true_iff in Hall. apply Hall. }
  assert (Ht : trimStart ((c :: ds) ++ rest) = (c :: ds) ++ rest).
  { cbn [app trimStart]. rewrite (isDigit_not_isWhiteSpace c Hc). reflexivity. }
  assert (Hc48 : 48 <= c <= 57).
  { unfold isDigit in Hc. apply andb_true_iff in Hc. destruct Hc as [H1 H2].
    apply Z.leb_le in H1. apply Z.leb_le in H2. lia. }
  assert (Hu : unsigned ((c :: ds) ++ rest) = (c :: ds) ++ rest).
  { cbn [app unsigned].
    destruct (Z.eqb_spec c 43); [lia |]. destruct (Z.eqb_spec c 45); [lia |]. reflexivity. }
  assert (Hn : negative ((c :: ds) ++ rest) = false).
  { cbn [app negative]. destruct (Z.eqb_spec c 45); [lia | reflexivity]. }
  assert (Hx : hexPrefixed ((c :: ds) ++ rest) = false).
  { destruct ds as [| d ds'].
    - (* a single digit, which is not 0 *)
      assert (c <> 48) by (unfold decimalValue in Hpos; cbn [fold_left] in Hpos; lia).
      cbn [app]. destruct rest as [| b rest']; [reflexivity |].
      unfold hexPrefixed. destruct (Z.eqb_spec c 48); [contradiction | reflexivity].
    - cbn [app]. unfold hexPrefixed.
      cbn [forallb] in Hall. apply andb_true_iff in Hall. destruct Hall as [_ Hall].
      apply andb_true_iff in Hall. destruct Hall as [Hd' _].
      unfold isDigit in Hd'. apply andb_true_iff in Hd'. destruct Hd' as [H1 H2].
      apply Z.leb_le in H1. apply Z.leb_le in H2.
      destruct (Z.eqb_spec d 120); [lia |]. destruct (Z.eqb_spec d 88); [lia |].
      apply andb_false_r. }
  rewrite parseInt_default, Ht, Hu, Hx, parseInt_10, Ht, Hu, Hn.
  rewrite (leadingDigits_all (c :: ds) rest Hall Hrest).
  unfold signedNumber. destruct (Z.eqb_spec (decimalValue (c :: ds)) 0); [lia |].
  f_equal. lia.
Qed.

(** ** indexOf and substring *)

Lemma indexOf_absent (s : jsstring) (c : Z) : ~ In c s -> indexOf s c = -1.
Proof.
  induction s as [| x s IH]; intros Hc; simpl; [reflexivity |].
  destruct (Z.eqb_spec x c) as [-> | Hx].
  - exfalso. apply Hc. left. reflexivity.
  - rewrite IH by (intros H; apply Hc; right; exact H). reflexivity.
Qed.

Lemma substring_to_minus_one (s : jsstring) : substring s 0 (Some (-1)) = [].
Proof.
  unfold substring.
  replace (Z.min (Z.max 0 0) (Z.of_nat (length s))) with 0 by lia.
  replace (Z.min (Z.max (-1) 0) (Z.of_nat (length s))) with 0 by lia.
  reflexivity.
Qed.

Lemma substring_from_zero (s : jsstring) : substring s 0 None = s.
Proof.
  unfold substring.
  replace (Z.min (Z.max 0 0) (Z.of_nat (length s))) with 0 by lia.
  replace (Z.min 0 (Z.of_nat (length s))) with 0 by lia.
  replace (Z.max 0 (Z.of_nat (length s)) - 0) with (Z.of_nat (length s)) by lia.
  rewrite Nat2Z.id. simpl skipn. apply firstn_all.
Qed.

(** * Facts about the program *)

(** ** The comparator of [getHighestRecords] *)

Lemma ltZero_NaN_as_zero (v : Number) : ltZero (if isNaN v then Fin 0 else v) = ltZero v.
Proof. destruct v; reflexivity. Qed.

Lemma gtZero_NaN_as_zero (v : Number) : gtZero (if isNaN v then Fin 0 else v) = gtZero v.
Proof. destruct v; reflexivity. Qed.

Lemma ltCF_descending (a b : ScoredRecord) :
  validScore a -> validScore b -> ltCF descending a b = lessThan (score b) (score a).
Proof.
  intros Ha Hb. unfold ltCF, SortCompare.
  rewrite ltZero_NaN_as_zero. apply ltZero_sub; assumption.
Qed.

Lemma gtCF_descending (a b : ScoredRecord) :
  validScore a -> validScore b -> gtCF descending a b = lessThan (score a) (score b).
Proof.
  intros Ha Hb. unfold gtCF, SortCompare.
  rewrite gtZero_NaN_as_zero. apply gtZero_sub; assumption.
Qed.

Lemma descending_consistent (S : ScoredRecord -> Prop) :
  (forall r, S r -> validScore r) -> Consistent descending S.
Proof.
  intros HS.
  assert (Heq : forall a b, S a -> S b ->
            eqCF descending a b
            = negb (lessThan (score b) (score a)) && negb (lessThan (score a) (score b))).
  { intros a b Ha Hb. unfold eqCF.
    rewrite ltCF_descending, gtCF_descending by auto. reflexivity. }
  split.
  - intros a Ha. rewrite Heq by assumption. rewrite lessThan_irrefl. reflexivity.
  - intros a b Ha Hb. rewrite !Heq by assumption. rewrite andb_comm. trivial.
  - intros a b c Ha Hb Hc. rewrite !Heq by assumption.
    rewrite !andb_true_iff, !negb_true_iff. intros [H1 H2] [H3 H4].
    pose proof (HS b Hb) as Hvb. unfold validScore in Hvb.
    split.
    + apply (lessThan_neither_trans _ (score b)); assumption.
    + apply (lessThan_neither_trans _ (score b)); assumption.
  - intros a b c Ha Hb Hc. rewrite !ltCF_descending by auto.
    intros H1 H2. apply (lessThan_trans _ (score b)); assumption.
  - intros a b c Ha Hb Hc. rewrite !gtCF_descending by auto.
    intros H1 H2. apply (lessThan_trans _ (score b)); assumption.
Qed.

(** ** Parsing *)

Lemma validateScoreAndRecord_Normal (scoreStr recordStr : jsstring) (r : ScoredRecord) :
  validateScoreAndRecord scoreStr recordStr = Normal r ->
  score r = parseInt scoreStr (Some 10)
  /\ isNaN (score r) = false
  /\ JSON_parse recordStr = Some (JObject (record r))
  /\ HasProperty (record r) (js "id") = true.
Proof.
  unfold validateScoreAndRecord.
  destruct (isNaN (parseInt scoreStr (Some 10))) eqn:Hnan; [discriminate |].
  destruct (JSON_parse recordStr) as [v |]; [| discriminate].
  destruct (negb (String.eqb (typeof v) "object") || Array_isArray v || isNull v);
    [discriminate |].
  destruct v as [| | | | | o]; try discriminate.
  destruct (HasProperty o (js "id")) eqn:Hid; simpl; [| discriminate].
  intros [= <-]. simpl. auto.
Qed.

Lemma parseLine_Normal (line : jsstring) (r : ScoredRecord) :
  parseLine line = Normal r ->
  validateScoreAndRecord (scoreStr line) (recordStr line) = Normal r.
Proof.
  unfold parseLine.
  destruct (validateScoreAndRecord (scoreStr line) (recordStr line)) as [x | |];
    simpl; try discriminate.
  intros [= <-]. destruct x; reflexivity.
Qed.

Lemma parseLine_never_throws (line : jsstring) (error : Error) :
  parseLine line <> Throw error.
Proof.
  unfold parseLine, validateScoreAndRecord.
  destruct (isNaN (parseInt (scoreStr line) (Some 10))); [discriminate |].
  destruct (JSON_parse (recordStr line)) as [v |]; [| discriminate].
  destruct (negb (String.eqb (typeof v) "object") || Array_isArray v || isNull v);
    [discriminate |].
  destruct v as [| | | | | o]; try discriminate.
  destruct (HasProperty o (js "id")); discriminate.
Qed.

Lemma mapM_Normal {A B : Type} (f : A -> Completion B) (l : list A) (ys : list B) :
  mapM f l = Normal ys <-> Forall2 (fun x y => f x = Normal y) l ys.
Proof.
  revert ys. induction l as [| x l IH]; intros ys; simpl.
  - split.
    + intros [= <-]. constructor.
    + intros H. inversion H. reflexivity.
  - split.
    + destruct (f x) as [y | |] eqn:Hx; simpl; try discriminate.
      destruct (mapM f l) as [ys' | |]; simpl; try discriminate.
      intros [= <-]. constructor; [exact Hx | apply IH; reflexivity].
    + intros H. inversion H as [| ? y ? ys' Hx Hrest]; subst.
      rewrite Hx. simpl. apply IH in Hrest. rewrite Hrest. reflexivity.
Qed.

Lemma Promise_all_fulfilled {A : Type} (promises : list (Promise A)) (values : list A) :
  Promise_all promises = inr values <-> promises = map inr values.
Proof.
  revert values. induction promises as [| p ps IH]; intros values; simpl.
  - split.
    + intros [= <-]. reflexivity.
    + destruct values; [reflexivity | discriminate].
  - destruct p as [e | a].
    + split; [discriminate | destruct values; discriminate].
    + split.
      * destruct (Promise_all ps) as [e | vs] eqn:Hps; [discriminate |].
        intros [= <-]. simpl. f_equal. apply IH. reflexivity.
      * destruct values as [| v vs]; [discriminate |].
        simpl. intros [= -> Hps]. apply IH in Hps. rewrite Hps. reflexivity.
Qed.

(** A file parses when each of its lines does, to the records of the
    lines in their order. *)
Lemma parseData_Normal (data : jsstring) (records : list ScoredRecord) :
  parseData data = Normal records <->
  Forall2 (fun line r => parseLine line = Normal r) (lines data) records.
Proof.
  unfold parseData. split.
  - destruct (mapM _ (lines data)) as [ps | |] eqn:Hm; simpl; try discriminate.
    destruct (Promise_all ps) as [e | rs] eqn:Hp; [discriminate |].
    intros [= <-]. apply Promise_all_fulfilled in Hp. subst ps.
    apply mapM_Normal in Hm. revert Hm. generalize (lines data). clear.
    induction rs as [| r rs IH]; intros l H; inversion H as [| x ? ? ? Hx Hrest]; subst.
    + constructor.
    + constructor; [| apply IH; exact Hrest].
      unfold async in Hx. destruct (parseLine x); congruence.
  - intros H.
    assert (Hm : mapM (fun line => async (parseLine line)) (lines data)
                 = Normal (map inr records)).
    { apply mapM_Normal. induction H as [| x r l rs Hx _ IH]; cbn [map]; constructor.
      - rewrite Hx. reflexivity.
      - exact IH. }
    rewrite Hm. simpl.
    destruct (Promise_all (map inr records)) as [e | rs] eqn:Hp.
    + assert (Hp' : Promise_all (map (@inr Error _) records) = inr records)
        by (apply Promise_all_fulfilled; reflexivity).
      congruence.
    + apply Promise_all_fulfilled in Hp.
      f_equal. clear - Hp. revert rs Hp.
      induction records as [| r records IH]; intros [| r' rs]; simpl; try discriminate.
      * reflexivity.
      * intros [= -> Hp]. f_equal. apply IH. exact Hp.
Qed.

Lemma parseData_length (data : jsstring) (records : list ScoredRecord) :
  parseData data = Normal records -> length records = length (lines data).
Proof.
  intros H. apply parseData_Normal in H. symmetry. apply (Forall2_length H).
Qed.

Lemma parseData_validScore (data : jsstring) (records : list ScoredRecord) :
  parseData data = Normal records -> Forall validScore records.
Proof.
  intros H. apply parseData_Normal in H.
  induction H as [| line r l rs Hr _ IH]; constructor; [| exact IH].
  apply parseLine_Normal, validateScoreAndRecord_Normal in Hr. apply Hr.
Qed.

Lemma parseDataFile_Normal (fs : FileSystem) (filePath : jsstring)
  (records : list ScoredRecord) :
  parseDataFile fs filePath = Normal records ->
  exists data, fs filePath = inr data /\ parseData data = Normal records.
Proof.
  unfold parseDataFile. destruct (fs filePath) as [e | data]; [discriminate |].
  intros H. exists data. auto.
Qed.


(** ** Ranking *)

Lemma Array_slice_from_0 {A : Type} (O : list A) (count : Number) :
  Array_slice O (Fin 0) (Some count)
  = firstn (Z.to_nat (relativeIndex (Z.of_nat (length O)) (ToIntegerOrInfinity count))) O.
Proof.
  unfold Array_slice.
  set (len := Z.of_nat (length O)).
  assert (Hk : relativeIndex len (ToIntegerOrInfinity (Fin 0)) = 0).
  { simpl. unfold len. lia. }
  rewrite Hk. simpl skipn.
  assert (Hf : 0 <= relativeIndex len (ToIntegerOrInfinity count)).
  { unfold relativeIndex, len.
    destruct (ToIntegerOrInfinity count) as [| | z]; try lia.
    destruct (z <? 0) eqn:Hz; lia. }
  f_equal. f_equal. lia.
Qed.

Lemma sort_descending {engine : Engine} (records : list ScoredRecord) :
  Forall validScore records ->
  Array_sort records descending = insertionSort descending records.
Proof.
  intros Hv. apply Array_sort_insertionSort. apply descending_consistent.
  intros r Hr. rewrite Forall_forall in Hv. apply Hv. exact Hr.
Qed.

Lemma sort_descending_order {engine : Engine} (records : list ScoredRecord) :
  Forall validScore records ->
  SortOrder descending records (Array_sort records descending).
Proof.
  intros Hv. apply Array_sort_order. apply descending_consistent.
  intros r Hr. rewrite Forall_forall in Hv. apply Hv. exact Hr.
Qed.

Lemma Forall_validScore_sorted {engine : Engine} (records : list ScoredRecord) :
  Forall validScore records -> Forall validScore (Array_sort records descending).
Proof.
  intros Hv. pose proof (sort_permutation _ _ _ (sort_descending_order records Hv)) as Hp.
  rewrite Forall_forall in *. intros r Hr. apply Hv.
  apply (Permutation_in r (Permutation_sym Hp)). exact Hr.
Qed.

Lemma before_nonIncreasing (l : list ScoredRecord) :
  Forall validScore l ->
  (StronglySorted (fun x y => ltCF descending y x = false) l <-> nonIncreasing l).
Proof.
  unfold nonIncreasing.
  induction l as [| a l IH]; intros Hv.
  - split; constructor.
  - inversion Hv as [| ? ? Ha Hv']; subst.
    assert (Hhd : Forall (fun y => ltCF descending y a = false) l
                  <-> Forall (fun y => lessEq (score y) (score a) = true) l).
    { rewrite !Forall_forall. rewrite Forall_forall in Hv'.
      split; intros H y Hy; specialize (H y Hy); pose proof (Hv' y Hy) as Hvy;
        unfold validScore in *.
      - rewrite ltCF_descending in H by assumption.
        unfold lessEq. rewrite Hvy, Ha, H. reflexivity.
      - rewrite ltCF_descending by assumption.
        unfold lessEq in H. rewrite Hvy, Ha in H. simpl in H.
        apply negb_true_iff in H. exact H. }
    split; intros H; inversion H; subst; constructor;
      try (apply IH; assumption); apply Hhd; assumption.
Qed.

Lemma sorted_records_nonIncreasing {engine : Engine} (records : list ScoredRecord) :
  Forall validScore records -> nonIncreasing (Array_sort records descending).
Proof.
  intros Hv. apply before_nonIncreasing.
  - apply Forall_validScore_sorted. exact Hv.
  - apply (sort_sorted _ _ _ (sort_descending_order records Hv)).
Qed.

Lemma In_firstn_In {A : Type} (n : nat) (l : list A) (x : A) :
  In x (firstn n l) -> In x l.
Proof.
  intros H. rewrite <- (firstn_skipn n l). apply in_or_app. left. exact H.
Qed.

Lemma StronglySorted_firstn {A : Type} (R : A -> A -> Prop) (n : nat) (l : list A) :
  StronglySorted R l -> StronglySorted R (firstn n l).
Proof.
  revert n. induction l as [| a l IH]; intros [| n] H; simpl; try constructor.
  - inversion H; subst. apply IH. assumption.
  - inversion H as [| ? ? _ Hall]; subst.
    rewrite Forall_forall in *. intros x Hx. apply Hall.
    revert Hx. apply In_firstn_In.
Qed.

Lemma StronglySorted_nth {A : Type} (R : A -> A -> Prop) (l : list A) :
  StronglySorted R l ->
  forall i j a b, (i < j)%nat ->
    nth_error l i = Some a -> nth_error l j = Some b -> R a b.
Proof.
  induction l as [| x l IH]; intros Hs i j a b Hij Hi Hj.
  - destruct i; discriminate.
  - inversion Hs as [| ? ? Hs' Hall]; subst.
    destruct j as [| j]; [lia |]. simpl in Hj.
    destruct i as [| i]; simpl in Hi.
    + injection Hi as <-. rewrite Forall_forall in Hall. apply Hall.
      apply (nth_error_In _ _ Hj).
    + apply (IH Hs' i j); [lia | assumption | assumption].
Qed.

Lemma nonIncreasing_entries (l : list ScoredRecord) :
  nonIncreasing l -> nonIncreasing (Array_map l toEntry).
Proof.
  unfold nonIncreasing, Array_map.
  induction l as [| a l IH]; intros H; simpl; [constructor |].
  inversion H as [| ? ? Hs Hall]; subst.
  constructor; [apply IH; exact Hs |].
  rewrite Forall_forall in *. intros y Hy.
  apply in_map_iff in Hy. destruct Hy as [r [<- Hr]]. simpl. apply Hall. exact Hr.
Qed.

(** The ranking of validated records is in non-increasing score order. *)
Lemma ranking_nonIncreasing {engine : Engine} (records : list ScoredRecord) (count : Number) :
  Forall validScore records -> nonIncreasing (snd (getHighestRecords records count)).
Proof.
  intros Hv. unfold getHighestRecords. simpl snd.
  apply nonIncreasing_entries. rewrite Array_slice_from_0.
  apply StronglySorted_firstn. apply sorted_records_nonIncreasing. exact Hv.
Qed.

Lemma sorted_length {engine : Engine} (records : list ScoredRecord) :
  Forall validScore records ->
  length (Array_sort records descending) = length records.
Proof.
  intros Hv. symmetry. apply Permutation_length.
  apply (sort_permutation _ _ _ (sort_descending_order records Hv)).
Qed.

(** On validated records the engine does not matter. *)
Lemma getHighestRecords_any_engine {engine : Engine}
  (records : list ScoredRecord) (count : Number) :
  Forall validScore records ->
  getHighestRecords records count
  = getHighestRecords (engine := insertionRight) records count.
Proof.
  intros Hv. unfold getHighestRecords.
  rewrite (sort_descending (engine := engine)), (sort_descending (engine := insertionRight))
    by exact Hv.
  reflexivity.
Qed.

(** A count beyond the length of the array takes every element, so the
    rounding of a count is not seen on an array of at most [2^53]
    elements. *)
Lemma Array_slice_rounded_count {A : Type} (O : list A) (z : Z) :
  0 < z -> Z.of_nat (length O) <= 2 ^ 53 ->
  Array_slice O (Fin 0) (Some (toNumber z)) = Array_slice O (Fin 0) (Some (Fin z)).
Proof.
  intros Hz Hlen.
  destruct (Z.le_gt_cases z (2 ^ 53)) as [Hle | Hgt].
  - rewrite toNumber_exact by lia. reflexivity.
  - rewrite !Array_slice_from_0. f_equal. f_equal.
    set (len := Z.of_nat (length O)) in *.
    pose proof (roundSignificand_large (Z.abs z) ltac:(lia)) as Hr.
    unfold toNumber.
    destruct (2 ^ 1024 <=? roundSignificand (Z.abs z)).
    + destruct (Z.ltb_spec z 0) as [Hneg | _]; [lia |].
      cbn [ToIntegerOrInfinity relativeIndex].
      destruct (Z.ltb_spec z 0); lia.
    + rewrite Z.sgn_pos by exact Hz.
      cbn [ToIntegerOrInfinity relativeIndex].
      destruct (Z.ltb_spec (1 * roundSignificand (Z.abs z)) 0);
        destruct (Z.ltb_spec z 0); lia.
Qed.

Lemma getHighestRecords_rounded_count {engine : Engine}
  (records : list ScoredRecord) (z : Z) :
  Forall validScore records -> 0 < z -> Z.of_nat (length records) <= 2 ^ 53 ->
  getHighestRecords records (toNumber z) = getHighestRecords records (Fin z).
Proof.
  intros Hv Hz Hlen. unfold getHighestRecords.
  rewrite Array_slice_rounded_count; [reflexivity | exact Hz |].
  rewrite (sorted_length records Hv). exact Hlen.
Qed.

Lemma tryBlock_rounded_count {engine : Engine} (fs : FileSystem) (filePath : jsstring)
  (z : Z) :
  0 < z ->
  (forall data, fs filePath = inr data -> Z.of_nat (length (lines data)) <= 2 ^ 53) ->
  tryBlock fs filePath (toNumber z) = tryBlock fs filePath (Fin z).
Proof.
  intros Hz Hlines. unfold tryBlock.
  destruct (parseDataFile fs filePath) as [records | error | status stderr] eqn:Hp;
    [| reflexivity | reflexivity].
  destruct (parseDataFile_Normal fs filePath records Hp) as [data [Hf Hd]].
  rewrite getHighestRecords_rounded_count; [reflexivity | | exact Hz |].
  - apply (parseData_validScore data). exact Hd.
  - rewrite (parseData_length data records Hd). apply Hlines. exact Hf.
Qed.

Lemma main_any_engine {engine : Engine} (argv : list jsstring) (fs : FileSystem) :
  main argv fs = main (engine := insertionRight) argv fs.
Proof.
  unfold main.
  destruct (Array_slice argv (Fin 2) None) as [| filePath [| countStr [| ? ?]]];
    try reflexivity.
  destruct (isNaN (parseInt countStr None) || leZero (parseInt countStr None));
    [reflexivity |].
  unfold tryBlock.
  destruct (parseDataFile fs filePath) as [records | error | status stderr] eqn:Hparse;
    try reflexivity.
  destruct (parseDataFile_Normal _ _ _ Hparse) as [data [_ Hdata]].
  rewrite (getHighestRecords_any_engine records _ (parseData_validScore _ _ Hdata)).
  reflexivity.
Qed.

(** * Examples *)

Example parseInt_42abc : parseInt (js "42abc") (Some 10) = Fin 42.
Proof. reflexivity. Qed.

Example parseData_example1 : parseData example1 = Normal records1.
Proof. reflexivity. Qed.

Example main_example1 (engine : Engine) :
  main (argvOf "data.txt" "2") (disk (js "data.txt") example1)
  = Exited 0 (Stdout [ {| score := Fin 20; record := Some (JString (js "c")) |};
                       {| score := Fin 10; record := Some (JString (js "a")) |} ]).
Proof. rewrite main_any_engine. vm_compute. reflexivity. Qed.

Example main_example2 (engine : Engine) :
  main (argvOf "data.txt" "5") (disk (js "data.txt") (js (lineOf "3" "x")))
  = Exited 0 (Stdout [ {| score := Fin 3; record := Some (JString (js "x")) |} ]).
Proof. rewrite main_any_engine. vm_compute. reflexivity. Qed.

(** The same run, on the engine that inserts from the left. *)
Example main_example1_insertionLeft :
  main (engine := insertionLeft) (argvOf "data.txt" "2") (disk (js "data.txt") example1)
  = Exited 0 (Stdout [ {| score := Fin 20; record := Some (JString (js "c")) |};
                       {| score := Fin 10; record := Some (JString (js "a")) |} ]).
Proof. vm_compute. reflexivity. Qed.

(** The two engines are two algorithms: with a comparator that is not
    consistent they leave the array in different orders. *)
Example engines_differ :
  @Array_sort insertionRight Z [1; 2; 3] (fun _ _ => Fin 1) = [3; 2; 1]
  /\ @Array_sort insertionLeft Z [1; 2; 3] (fun _ _ => Fin 1) = [1; 2; 3].
Proof. split; reflexivity. Qed.

(** Records of equal score keep the order of their lines. *)
Example ties_keep_input_order (engine : Engine) :
  main (argvOf "data.txt" "3")
    (disk (js "data.txt")
       (js (lineOf "7" "a" ++ newline ++ lineOf "9" "b" ++ newline ++ lineOf "7" "c")))
  = Exited 0 (Stdout [ {| score := Fin 9; record := Some (JString (js "b")) |};
                       {| score := Fin 7; record := Some (JString (js "a")) |};
                       {| score := Fin 7; record := Some (JString (js "c")) |} ]).
Proof. rewrite main_any_engine. vm_compute. reflexivity. Qed.

Example main_example3 (engine : Engine) :
  main (argvOf "data.txt" "1") (disk (js "data.txt") (js (lineOf "abc" "x")))
  = Exited 2 (Stderr "Invalid score: not an integer").
Proof. reflexivity. Qed.

Example main_example4 (engine : Engine) :
  main (argvOf "data.txt" "1") (disk (js "data.txt") (js "5: [1, 2, 3]"))
  = Exited 2 (Stderr "Invalid record: not a JSON dictionary").
Proof. reflexivity. Qed.

Example main_example5 (engine : Engine) :
  main (argvOf "data.txt" "1")
    (disk (js "data.txt") (js ("5: {" ++ quote ++ "name" ++ quote ++ ": 1}")))
  = Exited 2 (Stderr ("Invalid record: missing " ++ quote ++ "id" ++ quote ++ " field")).
Proof. reflexivity. Qed.

Example main_example6 (engine : Engine) :
  main (argvOf "missing.txt" "1") (disk (js "data.txt") example1)
  = Exited 1 (Stderr "File not found").
Proof. reflexivity. Qed.

Example score_42abc :
  validateScoreAndRecord (js "42abc") (js ("{" ++ quote ++ "id" ++ quote ++ ": 1}"))
  = Normal {| score := Fin 42; record := [(js "id", JNumber (js "1"))] |}.
Proof. reflexivity. Qed.

Example score_abc (recordStr : jsstring) :
  validateScoreAndRecord (js "abc") recordStr = InvalidScore.
Proof. reflexivity. Qed.

Example count_5abc (engine : Engine) :
  main (argvOf "data.txt" "5abc") (disk (js "data.txt") example1)
  = tryBlock (disk (js "data.txt") example1) (js "data.txt") (Fin 5).
Proof. reflexivity. Qed.

Example count_zero (engine : Engine) (fs : FileSystem) :
  main (argvOf "data.txt" "0") fs = InvalidCount.
Proof. reflexivity. Qed.

(** * The properties of the pipeline *)

(** ** The Ranker: order and length *)

(** C1. For every valid input (the file parses: every line validates) and
    every count, a positive integer in particular, the scores of the
    Ranker's result are non-increasing from the first entry to the last:
    an entry never has a score below that of a later entry. *)
Theorem C1_scores_non_increasing {engine : Engine}
  (fs : FileSystem) (filePath : jsstring) (records : list ScoredRecord) (count : Number) :
  parseDataFile fs filePath = Normal records ->
  forall (i j : nat) (x y : RankedEntry),
    (i < j)%nat ->
    nth_error (snd (getHighestRecords records count)) i = Some x ->
    nth_error (snd (getHighestRecords records count)) j = Some y ->
    lessEq (score y) (score x) = true.
Proof.
  intros Hparse i j x y Hij Hx Hy.
  destruct (parseDataFile_Normal _ _ _ Hparse) as [data [_ Hdata]].
  pose proof (ranking_nonIncreasing records count (parseData_validScore _ _ Hdata)) as Hs.
  exact (StronglySorted_nth _ _ Hs i j x y Hij Hx Hy).
Qed.

Lemma C1_witness :
  parseDataFile (disk (js "data.txt") example1) (js "data.txt") = Normal records1
  /\ nth_error (snd (getHighestRecords (engine := insertionRight) records1 (Fin 2))) 0
     = Some {| score := Fin 20; record := Some (JString (js "c")) |}
  /\ nth_error (snd (getHighestRecords (engine := insertionRight) records1 (Fin 2))) 1
     = Some {| score := Fin 10; record := Some (JString (js "a")) |}
  /\ lessEq (Fin 10) (Fin 20) = true.
Proof.
  split; [reflexivity | split; [reflexivity | split; [reflexivity |]]].
  exact (C1_scores_non_increasing (engine := insertionRight)
           (disk (js "data.txt") example1) (js "data.txt") records1 (Fin 2)
           Logic.eq_refl 0%nat 1%nat
           {| score := Fin 20; record := Some (JString (js "c")) |}
           {| score := Fin 10; record := Some (JString (js "a")) |}
           (le_n 1) Logic.eq_refl Logic.eq_refl).
Defined.

(** C2. For every valid input and every positive integer count, the
    result has [min count n] entries, [n] being the number of (non-blank,
    valid) lines of the input. When the input has no more than [count]
    lines every record is in the result, and that is no error: the run
    prints the result and exits with status 0. *)
Theorem C2_output_length {engine : Engine}
  (fs : FileSystem) (filePath data : jsstring) (records : list ScoredRecord) (count : Z) :
  fs filePath = inr data ->
  parseDataFile fs filePath = Normal records ->
  0 < count ->
  length (snd (getHighestRecords records (Fin count)))
  = Z.to_nat (Z.min count (Z.of_nat (length (lines data))))
  /\ (Z.of_nat (length (lines data)) <= count ->
      Permutation (Array_map records toEntry) (snd (getHighestRecords records (Fin count))))
  /\ tryBlock fs filePath (Fin count)
     = Exited 0 (Stdout (snd (getHighestRecords records (Fin count)))).
Proof.
  intros Hfile Hparse Hcount.
  assert (Hrun : tryBlock fs filePath (Fin count)
                 = Exited 0 (Stdout (snd (getHighestRecords records (Fin count))))).
  { unfold tryBlock. rewrite Hparse. reflexivity. }
  unfold parseDataFile in Hparse. rewrite Hfile in Hparse.
  pose proof (parseData_validScore _ _ Hparse) as Hv.
  pose proof (parseData_length _ _ Hparse) as Hlen.
  split; [| split; [| exact Hrun]]; clear Hrun;
    unfold getHighestRecords; simpl snd; unfold Array_map;
    rewrite Array_slice_from_0, sorted_length by exact Hv;
    simpl relativeIndex; (destruct (Z.ltb_spec count 0) as [Hneg | _]; [lia |]);
    rewrite <- Hlen.
  - rewrite length_map, length_firstn, sorted_length by exact Hv. lia.
  - intros Hall. rewrite firstn_all2 by (rewrite sorted_length by exact Hv; lia).
    apply Permutation_map.
    apply (sort_permutation _ _ _ (sort_descending_order records Hv)).
Qed.

Lemma C2_witness :
  disk (js "data.txt") example1 (js "data.txt") = inr example1
  /\ parseDataFile (disk (js "data.txt") example1) (js "data.txt") = Normal records1
  /\ 0 < 2
  /\ length (snd (getHighestRecords (engine := insertionRight) records1 (Fin 2)))
     = Z.to_nat (Z.min 2 (Z.of_nat (length (lines example1)))).
Proof.
  split; [reflexivity | split; [reflexivity | split; [reflexivity |]]].
  exact (proj1 (C2_output_length (engine := insertionRight)
                  (disk (js "data.txt") example1) (js "data.txt") example1 records1 2
                  Logic.eq_refl Logic.eq_refl Logic.eq_refl)).
Defined.

(** ** The Parser/Validator *)

(** C3. Once the score token is accepted, validation of the record token
    succeeds exactly when the token parses as JSON to a value that is an
    object, not an array and not null, and that has a key [id], whatever
    the value under it. Otherwise the run fails with the matching kind:
    [InvalidRecordJSON] when parsing fails, [InvalidRecordShape] when the
    value is not an object, or is an array, or is null, and
    [InvalidRecordMissingId] when the object has no key [id]. *)
Theorem C3_record_validation (scoreStr recordStr : jsstring) :
  isNaN (parseInt scoreStr (Some 10)) = false ->
  ((exists r, validateScoreAndRecord scoreStr recordStr = Normal r)
   <-> (exists v, JSON_parse recordStr = Some v
                  /\ typeof v = "object"%string /\ Array_isArray v = false /\ v <> JNull
                  /\ hasKey v (js "id") = true))
  /\ (JSON_parse recordStr = None ->
      validateScoreAndRecord scoreStr recordStr = InvalidRecordJSON)
  /\ (forall v, JSON_parse recordStr = Some v ->
        typeof v <> "object"%string \/ Array_isArray v = true \/ v = JNull ->
        validateScoreAndRecord scoreStr recordStr = InvalidRecordShape)
  /\ (forall v, JSON_parse recordStr = Some v ->
        typeof v = "object"%string -> Array_isArray v = false -> v <> JNull ->
        hasKey v (js "id") = false ->
        validateScoreAndRecord scoreStr recordStr = InvalidRecordMissingId)
  /\ (forall o, JSON_parse recordStr = Some (JObject o) ->
        HasProperty o (js "id") = true ->
        validateScoreAndRecord scoreStr recordStr
        = Normal {| score := parseInt scoreStr (Some 10); record := o |}).
Proof.
  intros Hscore. unfold validateScoreAndRecord. rewrite Hscore.
  destruct (JSON_parse recordStr) as [v |].
  - repeat split.
    + intros [r Hr].
      destruct v as [| b | n | s | es | o]; try discriminate Hr.
      simpl in Hr. destruct (HasProperty o (js "id")) eqn:Hid; [| discriminate Hr].
      exists (JObject o). repeat split; try reflexivity; [discriminate | exact Hid].
    + intros [v' [[= <-] [Ht [Ha [Hn Hid]]]]].
      destruct v as [| b | n | s | es | o]; try discriminate; try congruence.
      simpl in Hid. simpl. rewrite Hid. eexists. reflexivity.
    + discriminate.
    + intros v' [= <-] [Ht | [Ha | ->]]; [| | reflexivity].
      * destruct v; try reflexivity; exfalso; apply Ht; reflexivity.
      * destruct v; try discriminate Ha. reflexivity.
    + intros v' [= <-] Ht Ha Hn Hid.
      destruct v as [| b | n | s | es | o]; try discriminate; try congruence.
      simpl in Hid. simpl. rewrite Hid. reflexivity.
    + intros o [= ->] Hid. simpl. rewrite Hid. reflexivity.
  - repeat split; try discriminate; try reflexivity.
    + intros [r Hr]. discriminate Hr.
    + intros [v [Hv _]]. discriminate Hv.
Qed.

Lemma C3_witness :
  isNaN (parseInt (js "5") (Some 10)) = false
  /\ JSON_parse (js ("{" ++ quote ++ "id" ++ quote ++ ": null}"))
     = Some (JObject [(js "id", JNull)])
  /\ validateScoreAndRecord (js "5") (js ("{" ++ quote ++ "id" ++ quote ++ ": null}"))
     = Normal {| score := Fin 5; record := [(js "id", JNull)] |}.
Proof.
  split; [reflexivity | split; [reflexivity |]].
  exact (proj2 (proj2 (proj2 (proj2
           (C3_record_validation (js "5") (js ("{" ++ quote ++ "id" ++ quote ++ ": null}"))
              Logic.eq_refl))))
           [(js "id", JNull)] Logic.eq_refl Logic.eq_refl).
Defined.



(** C5, as the specification has it, fails: on a line with no colon the
    score token is not the whole line. [substring 0 (-1)] is the empty
    string: for the line [abc] the score token is empty. *)
Lemma C5_counterexample :
  ~ (forall line : jsstring,
        line <> [] -> trim line = line -> ~ In 58 line ->
        scoreStr line = line /\ recordStr line = line).
Proof.
  intros H.
  destruct (H (js "abc")) as [Hscore _].
  - discriminate.
  - reflexivity.
  - simpl. intros [H1 | [H1 | [H1 | []]]]; discriminate H1.
  - discriminate Hscore.
Qed.

(** C5, amended. For every line that contains no colon, the score token
    is the empty string and the record token is the whole line, trimmed
    (the line itself when it is trimmed already); so the line is
    rejected: it fails with [InvalidScore], and so does the parsing of a
    file of which it is the first line. *)
Theorem C5_line_without_colon (line : jsstring) :
  ~ In 58 line ->
  scoreStr line = []
  /\ recordStr line = trim line
  /\ (trim line = line -> recordStr line = line)
  /\ parseLine line = InvalidScore
  /\ (forall (data : jsstring) (rest : list jsstring),
        lines data = line :: rest -> parseData data = InvalidScore).
Proof.
  intros Hcolon.
  assert (Hi : colonIndex line = -1) by (apply indexOf_absent; exact Hcolon).
  assert (Hs : scoreStr line = []).
  { unfold scoreStr. rewrite Hi, substring_to_minus_one. reflexivity. }
  assert (Hr : recordStr line = trim line).
  { unfold recordStr. rewrite Hi. change (-1 + 1) with 0.
    rewrite substring_from_zero. reflexivity. }
  assert (Hp : parseLine line = InvalidScore).
  { unfold parseLine. rewrite Hs. reflexivity. }
  repeat split; try assumption.
  - intros Ht. rewrite Hr. exact Ht.
  - intros data rest Hl. unfold parseData. rewrite Hl. cbn [mapM].
    rewrite Hp. reflexivity.
Qed.

Lemma C5_witness :
  ~ In 58 (js "abc")
  /\ scoreStr (js "abc") = []
  /\ recordStr (js "abc") = js "abc"
  /\ parseLine (js "abc") = InvalidScore.
Proof.
  assert (Hcolon : ~ In 58 (js "abc")).
  { simpl. intros [H | [H | [H | []]]]; discriminate H. }
  split; [exact Hcolon |].
  destruct (C5_line_without_colon (js "abc") Hcolon) as [Hs [_ [Hr [Hp _]]]].
  split; [exact Hs | split; [exact (Hr Logic.eq_refl) | exact Hp]].
Defined.

(** ** The Ranker: its input, and counts that are not positive *)

(** C6, as the specification has it, fails: the Ranker does not leave
    its input as it was. [sort] works in place, and the array of the
    two records parsed from the lines [1: ...] and [2: ...] holds them in
    the other order after the call. *)
Lemma C6_counterexample :
  ~ (forall (engine : Engine) (data : jsstring) (records : list ScoredRecord)
            (count : Number),
        parseData data = Normal records ->
        fst (getHighestRecords records count) = records).
Proof.
  intros H.
  specialize (H insertionRight (js (lineOf "1" "a" ++ newline ++ lineOf "2" "b"))
                [ {| score := Fin 1; record := idOf "a" |};
                  {| score := Fin 2; record := idOf "b" |} ]
                (Fin 1) Logic.eq_refl).
  vm_compute in H. discriminate H.
Qed.

(** C6, amended. The Ranker reorders its input array in place: after the
    call the array holds the same records, none of them changed, in
    non-increasing order of score and with records of equal score in
    their former order. The array is as it was exactly when its scores
    were non-increasing already. *)
Theorem C6_input_sorted_in_place {engine : Engine}
  (records : list ScoredRecord) (count : Number) :
  Forall validScore records ->
  SortOrder descending records (fst (getHighestRecords records count))
  /\ nonIncreasing (fst (getHighestRecords records count))
  /\ (fst (getHighestRecords records count) = records <-> nonIncreasing records).
Proof.
  intros Hv. unfold getHighestRecords. simpl fst.
  pose proof (sort_descending_order records Hv) as Ho.
  split; [exact Ho | split; [apply sorted_records_nonIncreasing; exact Hv |]].
  split.
  - intros <-. apply sorted_records_nonIncreasing. exact Hv.
  - intros Hs.
    apply (SortOrder_unique descending records).
    + apply descending_consistent. intros r Hr.
      rewrite Forall_forall in Hv. apply Hv. exact Hr.
    + exact Ho.
    + split.
      * apply Permutation_refl.
      * apply before_nonIncreasing; assumption.
      * reflexivity.
Qed.

Lemma C6_witness :
  Forall validScore records1
  /\ nonIncreasing (fst (getHighestRecords (engine := insertionRight) records1 (Fin 2))).
Proof.
  assert (Hv : Forall validScore records1) by (repeat constructor).
  split; [exact Hv |].
  exact (proj1 (proj2 (C6_input_sorted_in_place (engine := insertionRight)
                         records1 (Fin 2) Hv))).
Defined.

(** C7, as the specification has it, fails: called with a count below
    zero the Ranker does not return the empty sequence. With the three
    records of the first example and count [-1] it returns two entries. *)
Lemma C7_counterexample :
  ~ (forall (engine : Engine) (data : jsstring) (records : list ScoredRecord)
            (count : Number),
        parseData data = Normal records ->
        leZero count = true ->
        snd (getHighestRecords records count) = []).
Proof.
  intros H.
  specialize (H insertionRight example1 records1 (Fin (-1)) Logic.eq_refl Logic.eq_refl).
  vm_compute in H. discriminate H.
Qed.

(** C7, amended. Called with count [0] (or [-0], or [-Infinity]) the
    Ranker returns the empty sequence. Called with a negative count [-k]
    it returns the ranking without its last [k] entries, [n - k] of them
    for [n] records and none when [k >= n]: [slice] counts a negative
    end from the end of the array. *)
Theorem C7_count_not_positive {engine : Engine}
  (records : list ScoredRecord) (count : Number) :
  Forall validScore records ->
  leZero count = true ->
  match count with
  | Fin z =>
      if z =? 0 then snd (getHighestRecords records count) = []
      else
        snd (getHighestRecords records count)
        = Array_map (firstn (Z.to_nat (Z.of_nat (length records) + z))
                       (fst (getHighestRecords records count))) toEntry
        /\ length (snd (getHighestRecords records count))
           = Z.to_nat (Z.of_nat (length records) + z)
  | _ => snd (getHighestRecords records count) = []
  end.
Proof.
  intros Hv Hle. unfold getHighestRecords. simpl fst. simpl snd.
  rewrite Array_slice_from_0, sorted_length by exact Hv.
  set (n := Z.of_nat (length records)).
  assert (Hn : 0 <= n) by (unfold n; lia).
  destruct count as [| | | | z]; simpl in Hle; try discriminate.
  - reflexivity.
  - simpl. replace (Z.to_nat (Z.min 0 n)) with 0%nat by lia. reflexivity.
  - apply Z.leb_le in Hle. simpl relativeIndex.
    destruct (Z.eqb_spec z 0) as [-> | Hnz].
    + simpl. replace (Z.to_nat (Z.min 0 n)) with 0%nat by lia. reflexivity.
    + destruct (Z.ltb_spec z 0) as [Hneg | Hpos]; [| lia].
      replace (Z.to_nat (Z.max (n + z) 0)) with (Z.to_nat (n + z)) by lia.
      split; [reflexivity |].
      unfold Array_map. rewrite length_map, length_firstn, sorted_length by exact Hv.
      lia.
Qed.

Lemma C7_witness :
  Forall validScore records1
  /\ leZero (Fin (-1)) = true
  /\ snd (getHighestRecords (engine := insertionRight) records1 (Fin (-1)))
     = Array_map (firstn 2 (fst (getHighestRecords (engine := insertionRight)
                                   records1 (Fin (-1))))) toEntry
  /\ length (snd (getHighestRecords (engine := insertionRight) records1 (Fin (-1)))) = 2%nat.
Proof.
  assert (Hv : Forall validScore records1) by (repeat constructor).
  split; [exact Hv | split; [reflexivity |]].
  exact (C7_count_not_positive (engine := insertionRight) records1 (Fin (-1))
           Hv Logic.eq_refl).
Defined.

(** ** The boundary layer *)

(** C8, as the specification has it, fails: a count argument that does
    not denote a positive integer is not always rejected. [parseInt]
    reads a leading prefix, and with the argument [5abc] the run goes on,
    with count 5. *)
Lemma C8_counterexample :
  ~ (forall (engine : Engine) (node script filePath countStr : jsstring) (fs : FileSystem),
        denotesPositiveInteger countStr = false ->
        main [node; script; filePath; countStr] fs = InvalidCount).
Proof.
  intros H.
  specialize (H insertionRight (js "node") (js "score.js") (js "data.txt") (js "5abc")
                (disk (js "data.txt") example1) Logic.eq_refl).
  vm_compute in H. discriminate H.
Qed.

(** C8, amended. The boundary layer reads the count argument with
    [parseInt]. When the result is NaN or is not above zero the run is
    rejected with [InvalidCount] and exit status 2, before the file is
    read and the Ranker reached; so it is for an argument with no integer
    prefix and for one that begins with a minus sign. Otherwise the run
    goes on with the Number read. For an argument that is, or that
    begins with, the decimal numeral of a positive integer, that is the
    Number nearest to the integer: the integer itself when it is at
    most [2^53], a rounded value or [Infinity] beyond that; and on a
    file of at most [2^53] lines the run then ends as it would with the
    integer itself as count. *)
Theorem C8_count_argument {engine : Engine}
  (node script filePath countStr : jsstring) (fs : FileSystem) :
  (isNaN (parseInt countStr None) || leZero (parseInt countStr None) = true ->
   main [node; script; filePath; countStr] fs = InvalidCount)
  /\ (isNaN (parseInt countStr None) || leZero (parseInt countStr None) = false ->
      main [node; script; filePath; countStr] fs
      = tryBlock fs filePath (parseInt countStr None))
  /\ (integerPrefix countStr = None ->
      main [node; script; filePath; countStr] fs = InvalidCount)
  /\ (negative (trimStart countStr) = true ->
      main [node; script; filePath; countStr] fs = InvalidCount)
  /\ (forall digits rest : jsstring,
        countStr = digits ++ rest ->
        denotesPositiveInteger digits = true -> leadingDigits rest = [] ->
        main [node; script; filePath; countStr] fs
        = tryBlock fs filePath (toNumber (decimalValue digits)))
  /\ (forall digits rest : jsstring,
        countStr = digits ++ rest ->
        denotesPositiveInteger digits = true -> leadingDigits rest = [] ->
        decimalValue digits <= 2 ^ 53 ->
        parseInt countStr None = Fin (decimalValue digits)
        /\ main [node; script; filePath; countStr] fs
           = tryBlock fs filePath (Fin (decimalValue digits)))
  /\ (forall digits rest : jsstring,
        countStr = digits ++ rest ->
        denotesPositiveInteger digits = true -> leadingDigits rest = [] ->
        (forall data, fs filePath = inr data ->
           Z.of_nat (length (lines data)) <= 2 ^ 53) ->
        main [node; script; filePath; countStr] fs
        = tryBlock fs filePath (Fin (decimalValue digits))).
Proof.
  assert (Hmain : main [node; script; filePath; countStr] fs
                  = if isNaN (parseInt countStr None) || leZero (parseInt countStr None)
                    then InvalidCount
                    else tryBlock fs filePath (parseInt countStr None)) by reflexivity.
  rewrite Hmain. clear Hmain.
  assert (Hnumeral : forall digits rest : jsstring,
             countStr = digits ++ rest ->
             denotesPositiveInteger digits = true -> leadingDigits rest = [] ->
             0 < decimalValue digits
             /\ parseInt countStr None = toNumber (decimalValue digits)
             /\ (if isNaN (parseInt countStr None) || leZero (parseInt countStr None)
                 then InvalidCount
                 else tryBlock fs filePath (parseInt countStr None))
                = tryBlock fs filePath (toNumber (decimalValue digits))).
  { intros digits rest -> Hd Hrest.
    rewrite (parseInt_default_numeral digits rest Hd Hrest).
    rewrite toNumber_not_NaN, leZero_toNumber.
    unfold denotesPositiveInteger in Hd.
    apply andb_true_iff in Hd. destruct Hd as [_ Hpos]. apply Z.ltb_lt in Hpos.
    split; [exact Hpos | split; [reflexivity |]].
    destruct (Z.leb_spec (decimalValue digits) 0); [lia | reflexivity]. }
  split; [| split; [| split; [| split; [| split; [| split]]]]].
  - intros ->. reflexivity.
  - intros ->. reflexivity.
  - intros Hp. rewrite (parseInt_default_no_prefix countStr Hp). reflexivity.
  - intros Hneg. rewrite (parseInt_default_negative countStr Hneg). reflexivity.
  - intros digits rest Hc Hd Hrest.
    apply (Hnumeral digits rest Hc Hd Hrest).
  - intros digits rest Hc Hd Hrest Hsmall.
    destruct (Hnumeral digits rest Hc Hd Hrest) as [Hpos [Hp Hm]].
    rewrite Hm, Hp. rewrite toNumber_exact by lia. split; reflexivity.
  - intros digits rest Hc Hd Hrest Hlines.
    destruct (Hnumeral digits rest Hc Hd Hrest) as [Hpos [_ Hm]].
    rewrite Hm. apply tryBlock_rounded_count; assumption.
Qed.

(** ** Determinism *)

(** C9. The pipeline is deterministic. The one thing ECMAScript leaves
    to the engine here is the algorithm of [sort]; on the same arguments
    and the same file system two runs, be they on two engines, end alike:
    the same exit status with the same result printed, or the same exit
    status with the same diagnostic. *)
Theorem C9_deterministic (engine1 engine2 : Engine)
  (argv : list jsstring) (fs : FileSystem) :
  main (engine := engine1) argv fs = main (engine := engine2) argv fs.
Proof.
  rewrite (main_any_engine (engine := engine1)), (main_any_engine (engine := engine2)).
  reflexivity.
Qed.

(** ** Negative scores *)





(** * More properties of the program *)

(** ** The lines of a file *)

Lemma split_not_nil (s : jsstring) (sep : Z) : split s sep <> [].
Proof.
  destruct s as [| c s]; simpl; [discriminate |].
  destruct (c =? sep); [discriminate |].
  destruct (split s sep); discriminate.
Qed.

Lemma split_app (a b : jsstring) (sep : Z) :
  split (a ++ sep :: b) sep = split a sep ++ split b sep.
Proof.
  induction a as [| c a IH]; simpl.
  - rewrite Z.eqb_refl. reflexivity.
  - destruct (c =? sep).
    + rewrite IH. reflexivity.
    + rewrite IH. pose proof (split_not_nil a sep) as Hne.
      destruct (split a sep) as [| w ws]; [contradiction | reflexivity].
Qed.

Lemma lines_app (a b : jsstring) : lines (a ++ 10 :: b) = lines a ++ lines b.
Proof.
  unfold lines, Array_filter, Array_map.
  rewrite split_app, map_app, filter_app. reflexivity.
Qed.

Lemma trimStart_whitespace (s : jsstring) :
  forallb isWhiteSpace s = true -> trimStart s = [].
Proof.
  induction s as [| c s IH]; simpl; [reflexivity |].
  intros H. apply andb_true_iff in H. destruct H as [Hc Hs].
  rewrite Hc. apply IH. exact Hs.
Qed.

Lemma split_whitespace (s : jsstring) (sep : Z) :
  forallb isWhiteSpace s = true ->
  Forall (fun piece => forallb isWhiteSpace piece = true) (split s sep).
Proof.
  induction s as [| c s IH]; simpl; intros H.
  - repeat constructor.
  - apply andb_true_iff in H. destruct H as [Hc Hs]. specialize (IH Hs).
    destruct (c =? sep).
    + constructor; [reflexivity | exact IH].
    + destruct (split s sep) as [| w ws]; [repeat constructor; simpl; rewrite Hc; reflexivity |].
      inversion IH as [| ? ? Hw Hws]; subst.
      constructor; [| exact Hws]. simpl. rewrite Hc. exact Hw.
Qed.

Lemma lines_whitespace (w : jsstring) : forallb isWhiteSpace w = true -> lines w = [].
Proof.
  intros Hw. unfold lines, Array_filter, Array_map.
  pose proof (split_whitespace w 10 Hw) as Hall.
  induction Hall as [| piece pieces Hp _ IH]; simpl; [reflexivity |].
  unfold trim. rewrite (trimStart_whitespace piece Hp). simpl. exact IH.
Qed.

(** The suffix that [trimStart] keeps. *)
Lemma trimStart_suffix (s : jsstring) : exists p, s = p ++ trimStart s.
Proof.
  induction s as [| c s [p Hp]]; simpl.
  - exists []. reflexivity.
  - destruct (isWhiteSpace c).
    + exists (c :: p). simpl. rewrite <- Hp. reflexivity.
    + exists []. reflexivity.
Qed.

(** The string begins with white space. *)
Definition leadingSpace (s : jsstring) : bool :=
  match s with
  | c :: _ => isWhiteSpace c
  | [] => false
  end.

Lemma leadingSpace_trimStart (s : jsstring) : leadingSpace (trimStart s) = false.
Proof.
  induction s as [| c s IH]; simpl; [reflexivity |].
  destruct (isWhiteSpace c) eqn:Hc; [exact IH | simpl; exact Hc].
Qed.

Lemma trimStart_fixed (s : jsstring) : leadingSpace s = false -> trimStart s = s.
Proof.
  destruct s as [| c s]; simpl; [reflexivity |]. intros ->. reflexivity.
Qed.

Lemma leadingSpace_app (s t : jsstring) :
  s <> [] -> leadingSpace (s ++ t) = leadingSpace s.
Proof. destruct s; [contradiction | reflexivity]. Qed.

(** A trimmed string neither begins nor ends with white space. *)
Lemma trim_no_space (s : jsstring) :
  leadingSpace (trim s) = false /\ leadingSpace (rev (trim s)) = false.
Proof.
  unfold trim, trimEnd.
  set (u := trimStart s). set (w := trimStart (rev u)).
  split.
  - destruct (trimStart_suffix (rev u)) as [p Hp]. fold w in Hp.
    assert (Hu : u = rev w ++ rev p).
    { rewrite <- (rev_involutive u), Hp, rev_app_distr. reflexivity. }
    destruct (rev w) as [| c t] eqn:Hw; [reflexivity |].
    pose proof (leadingSpace_trimStart s) as Hl. fold u in Hl.
    rewrite Hu in Hl. exact Hl.
  - rewrite rev_involutive. apply leadingSpace_trimStart.
Qed.

Lemma trim_fixed (s : jsstring) :
  leadingSpace s = false -> leadingSpace (rev s) = false -> trim s = s.
Proof.
  intros H1 H2. unfold trim, trimEnd.
  rewrite (trimStart_fixed s H1), (trimStart_fixed (rev s) H2). apply rev_involutive.
Qed.

Lemma trim_idempotent (s : jsstring) : trim (trim s) = trim s.
Proof. destruct (trim_no_space s) as [H1 H2]. apply trim_fixed; assumption. Qed.

Lemma In_trimStart (s : jsstring) (c : Z) : In c (trimStart s) -> In c s.
Proof.
  destruct (trimStart_suffix s) as [p Hp]. intros H.
  rewrite Hp. apply in_or_app. right. exact H.
Qed.

Lemma In_trim (s : jsstring) (c : Z) : In c (trim s) -> In c s.
Proof.
  unfold trim, trimEnd. intros H.
  apply In_trimStart. apply in_rev. apply In_trimStart. apply in_rev in H. exact H.
Qed.

Lemma split_no_separator (s : jsstring) (sep : Z) :
  Forall (fun piece => ~ In sep piece) (split s sep).
Proof.
  induction s as [| c s IH]; simpl.
  - constructor; [intros [] | constructor].
  - destruct (Z.eqb_spec c sep) as [-> | Hc].
    + constructor; [intros [] | exact IH].
    + destruct (split s sep) as [| w ws].
      * constructor; [| constructor]. intros [H | []]. congruence.
      * inversion IH as [| ? ? Hw Hws]; subst.
        constructor; [| exact Hws]. intros [H | H]; [congruence | contradiction].
Qed.

(** The promises add nothing: the lines are validated one after the
    other, up to the first that ends the process. *)
Lemma parseData_mapM (data : jsstring) : parseData data = mapM parseLine (lines data).
Proof.
  unfold parseData. induction (lines data) as [| line l IH]; [reflexivity |].
  cbn [mapM].
  pose proof (parseLine_never_throws line) as Hnt.
  destruct (parseLine line) as [r | e | st m]; [| exfalso; apply (Hnt e); reflexivity |];
    cbn [async bind]; [| reflexivity].
  rewrite <- IH.
  destruct (mapM (fun line => async (parseLine line)) l) as [ps | e | st m];
    cbn [bind Promise_all]; try reflexivity.
  destruct (Promise_all ps); reflexivity.
Qed.

Lemma mapM_app {A B : Type} (f : A -> Completion B) (l1 l2 : list A) :
  mapM f (l1 ++ l2) = (y1 <- mapM f l1 ;; y2 <- mapM f l2 ;; Normal (y1 ++ y2)).
Proof.
  induction l1 as [| x l1 IH]; cbn [app mapM].
  - cbn [bind]. destruct (mapM f l2); reflexivity.
  - destruct (f x) as [y | e | st m]; cbn [bind]; try reflexivity.
    rewrite IH.
    destruct (mapM f l1) as [y1 | e | st m]; cbn [bind]; try reflexivity.
    destruct (mapM f l2); reflexivity.
Qed.

(** X1. The lines of a text that is two texts joined by a line break
    are the lines of the first and then those of the second; so parsing
    it is parsing the first and then the second: the records of both in
    order, or the failure of the first, or else that of the second. *)
Theorem X1_parse_line_break (a b : jsstring) :
  lines (a ++ 10 :: b) = lines a ++ lines b
  /\ parseData (a ++ 10 :: b)
     = (ra <- parseData a ;; rb <- parseData b ;; Normal (ra ++ rb)).
Proof.
  split; [apply lines_app |].
  rewrite !parseData_mapM, lines_app. apply mapM_app.
Qed.

(** X2. Blank lines give neither records nor errors: a text of white
    space only has no lines, and such a text put as a line (or as several
    blank lines) between two texts changes nothing in what is parsed. *)
Theorem X2_blank_lines_skipped (w : jsstring) :
  forallb isWhiteSpace w = true ->
  lines w = []
  /\ parseData w = Normal []
  /\ forall a b : jsstring,
       lines (a ++ 10 :: w ++ 10 :: b) = lines (a ++ 10 :: b)
       /\ parseData (a ++ 10 :: w ++ 10 :: b) = parseData (a ++ 10 :: b).
Proof.
  intros Hw. pose proof (lines_whitespace w Hw) as Hl.
  assert (Hlines : forall a b, lines (a ++ 10 :: w ++ 10 :: b) = lines (a ++ 10 :: b)).
  { intros a b. rewrite !lines_app, Hl. reflexivity. }
  split; [exact Hl | split].
  - rewrite parseData_mapM, Hl. reflexivity.
  - intros a b. split; [apply Hlines |].
    rewrite !parseData_mapM, Hlines. reflexivity.
Qed.

Lemma X2_witness :
  forallb isWhiteSpace (js "   ") = true
  /\ lines (js (lineOf "1" "a") ++ 10 :: js "   " ++ 10 :: js (lineOf "2" "b"))
     = lines (js (lineOf "1" "a") ++ 10 :: js (lineOf "2" "b")).
Proof.
  split; [reflexivity |].
  exact (proj1 (proj2 (proj2 (X2_blank_lines_skipped (js "   ") Logic.eq_refl))
                  (js (lineOf "1" "a")) (js (lineOf "2" "b")))).
Defined.

(** X3. Every line handed to the validator is non-empty, holds no line
    break and is trimmed: it neither begins nor ends with white space,
    and trimming it again leaves it as it is. *)
Theorem X3_lines_trimmed (data : jsstring) :
  Forall (fun line => line <> []
                      /\ ~ In 10 line
                      /\ leadingSpace line = false
                      /\ leadingSpace (rev line) = false
                      /\ trim line = line)
         (lines data).
Proof.
  unfold lines, Array_filter, Array_map.
  apply Forall_forall. intros line Hin.
  apply filter_In in Hin. destruct Hin as [Hin Hne].
  apply in_map_iff in Hin. destruct Hin as [piece [<- Hpiece]].
  destruct (trim_no_space piece) as [H1 H2].
  repeat split.
  - intros Heq. rewrite Heq in Hne. discriminate Hne.
  - intros H10. apply In_trim in H10.
    pose proof (split_no_separator data 10) as Hall.
    rewrite Forall_forall in Hall. exact (Hall piece Hpiece H10).
  - exact H1.
  - exact H2.
  - apply trim_idempotent.
Qed.

Lemma trimStart_app (s t : jsstring) :
  trimStart s <> [] -> trimStart (s ++ t) = trimStart s ++ t.
Proof.
  induction s as [| c s IH]; simpl; [contradiction |].
  destruct (isWhiteSpace c); [exact IH | reflexivity].
Qed.

Lemma trim_app_whitespace (s w : jsstring) :
  forallb isWhiteSpace w = true -> trim (s ++ w) = trim s.
Proof.
  intros Hw. unfold trim, trimEnd.
  destruct (trimStart s) as [| c u] eqn:Hs.
  - assert (Hall : forallb isWhiteSpace s = true).
    { clear - Hs. induction s as [| x s IH]; [reflexivity |].
      simpl in *. destruct (isWhiteSpace x); [apply IH; exact Hs | discriminate Hs]. }
    rewrite (trimStart_whitespace (s ++ w)); [reflexivity |].
    rewrite forallb_app, Hall, Hw. reflexivity.
  - rewrite trimStart_app by (rewrite Hs; discriminate).
    rewrite Hs, rev_app_distr. f_equal.
    assert (Hrev : forallb isWhiteSpace (rev w) = true).
    { rewrite forallb_forall in *. intros x Hx. apply Hw. apply in_rev. exact Hx. }
    clear - Hrev. induction (rev w) as [| x r IH]; [reflexivity |].
    simpl in *. apply andb_true_iff in Hrev. destruct Hrev as [Hx Hr].
    rewrite Hx. apply IH. exact Hr.
Qed.

Lemma split_app_no_separator (a w : jsstring) (sep : Z) :
  ~ In sep w ->
  exists pieces last,
    split a sep = pieces ++ [last] /\ split (a ++ w) sep = pieces ++ [last ++ w].
Proof.
  intros Hw. induction a as [| c a [pieces [last [Ha Haw]]]].
  - exists [], []. split; [reflexivity |]. simpl.
    induction w as [| x w IH]; [reflexivity |]. simpl.
    destruct (Z.eqb_spec x sep) as [-> | Hx]; [exfalso; apply Hw; left; reflexivity |].
    rewrite IH by (intros H; apply Hw; right; exact H). reflexivity.
  - simpl. destruct (c =? sep).
    + exists ([] :: pieces), last. rewrite Ha, Haw. split; reflexivity.
    + rewrite Ha, Haw. destruct pieces as [| p ps]; simpl.
      * exists [], (c :: last). split; reflexivity.
      * exists ((c :: p) :: ps), last. split; reflexivity.
Qed.

(** White space at the end of a text adds no line. *)
Lemma lines_app_whitespace (a w : jsstring) :
  forallb isWhiteSpace w = true -> ~ In 10 w -> lines (a ++ w) = lines a.
Proof.
  intros Hw H10. unfold lines, Array_filter, Array_map.
  destruct (split_app_no_separator a w 10 H10) as [pieces [last [Ha Haw]]].
  rewrite Ha, Haw, !map_app, !filter_app. simpl.
  rewrite (trim_app_whitespace last w Hw). reflexivity.
Qed.

(** X4. White space before a line break is not part of the line: a
    text whose lines end with a carriage return and a line feed, or with
    blanks and a line feed, parses as the text with the line feeds alone. *)
Theorem X4_trailing_space_ignored (a w b : jsstring) :
  forallb isWhiteSpace w = true -> ~ In 10 w ->
  lines (a ++ w ++ 10 :: b) = lines (a ++ 10 :: b)
  /\ parseData (a ++ w ++ 10 :: b) = parseData (a ++ 10 :: b).
Proof.
  intros Hw H10.
  assert (Hl : lines (a ++ w ++ 10 :: b) = lines (a ++ 10 :: b)).
  { rewrite app_assoc, !lines_app, (lines_app_whitespace a w Hw H10). reflexivity. }
  split; [exact Hl |]. rewrite !parseData_mapM, Hl. reflexivity.
Qed.

Lemma X4_witness :
  forallb isWhiteSpace [13] = true
  /\ ~ In 10 [13]
  /\ lines (js (lineOf "1" "a") ++ [13] ++ 10 :: js (lineOf "2" "b"))
     = lines (js (lineOf "1" "a") ++ 10 :: js (lineOf "2" "b")).
Proof.
  assert (H10 : ~ In 10 [13]) by (intros [H | []]; discriminate H).
  split; [reflexivity | split; [exact H10 |]].
  exact (proj1 (X4_trailing_space_ignored (js (lineOf "1" "a")) [13] (js (lineOf "2" "b"))
                  Logic.eq_refl H10)).
Defined.

(** ** The tokens of a line *)

Lemma indexOf_first (s r : jsstring) (c : Z) :
  ~ In c s -> indexOf (s ++ c :: r) c = Z.of_nat (length s).
Proof.
  induction s as [| x s IH]; intros Hc; cbn [app indexOf length].
  - rewrite Z.eqb_refl. reflexivity.
  - destruct (Z.eqb_spec x c) as [-> | Hx]; [exfalso; apply Hc; left; reflexivity |].
    rewrite IH by (intros H; apply Hc; right; exact H).
    destruct (Z.ltb_spec (Z.of_nat (length s)) 0); lia.
Qed.

Lemma substring_range (s : jsstring) (i j : Z) :
  0 <= i <= j -> j <= Z.of_nat (length s) ->
  substring s i (Some j) = firstn (Z.to_nat (j - i)) (skipn (Z.to_nat i) s).
Proof.
  intros Hij Hj. unfold substring. cbv zeta.
  rewrite (Z.max_l i 0), (Z.max_l j 0) by lia.
  rewrite (Z.min_l i (Z.of_nat (length s))), (Z.min_l j (Z.of_nat (length s))) by lia.
  rewrite (Z.min_l i j), (Z.max_r i j) by lia. reflexivity.
Qed.

Lemma substring_from (s : jsstring) (i : Z) :
  0 <= i <= Z.of_nat (length s) -> substring s i None = skipn (Z.to_nat i) s.
Proof.
  intros Hi. unfold substring. cbv zeta.
  rewrite (Z.max_l i 0) by lia.
  rewrite (Z.min_l i (Z.of_nat (length s))) by lia.
  rewrite (Z.min_l i (Z.of_nat (length s))), (Z.max_r i (Z.of_nat (length s))) by lia.
  apply firstn_all2. rewrite length_skipn. lia.
Qed.

Lemma substring_before (s r : jsstring) (c : Z) :
  substring (s ++ c :: r) 0 (Some (Z.of_nat (length s))) = s.
Proof.
  rewrite substring_range by (rewrite ?length_app; cbn [length]; lia).
  rewrite Z.sub_0_r, Nat2Z.id. cbn [Z.to_nat skipn].
  rewrite firstn_app, firstn_all, Nat.sub_diag. cbn [firstn]. apply app_nil_r.
Qed.

Lemma substring_after (s r : jsstring) (c : Z) :
  substring (s ++ c :: r) (Z.of_nat (length s) + 1) None = r.
Proof.
  rewrite substring_from by (rewrite length_app; cbn [length]; lia).
  replace (Z.to_nat (Z.of_nat (length s) + 1)) with (S (length s)) by lia.
  induction s as [| x s IH]; [reflexivity | exact IH].
Qed.

Lemma parseLine_validate (line : jsstring) :
  parseLine line = validateScoreAndRecord (scoreStr line) (recordStr line).
Proof.
  unfold parseLine.
  destruct (validateScoreAndRecord (scoreStr line) (recordStr line)) as [[sc rc] | |];
    reflexivity.
Qed.

(** X5. A line is cut at its first colon: the score token is what
    stands before it and the record token all that follows it, further
    colons included, both trimmed; these two tokens are validated. *)
Theorem X5_first_colon (s r : jsstring) :
  ~ In 58 s ->
  colonIndex (s ++ 58 :: r) = Z.of_nat (length s)
  /\ scoreStr (s ++ 58 :: r) = trim s
  /\ recordStr (s ++ 58 :: r) = trim r
  /\ parseLine (s ++ 58 :: r) = validateScoreAndRecord (trim s) (trim r).
Proof.
  intros Hs.
  assert (Hi : colonIndex (s ++ 58 :: r) = Z.of_nat (length s))
    by (apply indexOf_first; exact Hs).
  assert (Hsc : scoreStr (s ++ 58 :: r) = trim s).
  { unfold scoreStr. rewrite Hi, substring_before. reflexivity. }
  assert (Hrc : recordStr (s ++ 58 :: r) = trim r).
  { unfold recordStr. rewrite Hi, substring_after. reflexivity. }
  repeat split; try assumption.
  rewrite parseLine_validate, Hsc, Hrc. reflexivity.
Qed.

Lemma X5_witness :
  ~ In 58 (js "7 ")
  /\ recordStr (js "7 " ++ 58 :: js (" {" ++ quote ++ "id" ++ quote ++ ": 1}"))
     = js ("{" ++ quote ++ "id" ++ quote ++ ": 1}").
Proof.
  assert (Hs : ~ In 58 (js "7 ")).
  { simpl. intros [H | [H | []]]; discriminate H. }
  split; [exact Hs |].
  exact (proj1 (proj2 (proj2 (X5_first_colon (js "7 ")
                                 (js (" {" ++ quote ++ "id" ++ quote ++ ": 1}")) Hs)))).
Defined.

(** ** What parsing returns *)

Lemma mapM_Exit {A B : Type} (f : A -> Completion B) (l : list A)
  (status : Z) (stderr : string) :
  mapM f l = Exit status stderr <->
  exists good ys bad rest,
    l = good ++ bad :: rest
    /\ Forall2 (fun x y => f x = Normal y) good ys
    /\ f bad = Exit status stderr.
Proof.
  split.
  - induction l as [| x l IH]; cbn [mapM]; [discriminate |].
    destruct (f x) as [y | e | st m] eqn:Hx; cbn [bind].
    + destruct (mapM f l) as [ys | e | st m]; cbn [bind]; try discriminate.
      intros [= -> ->].
      destruct (IH Logic.eq_refl) as [good [ys [bad [rest [-> [Hgood Hbad]]]]]].
      exists (x :: good), (y :: ys), bad, rest.
      split; [reflexivity | split; [constructor; assumption | exact Hbad]].
    + discriminate.
    + intros [= -> ->]. exists [], [], x, l.
      split; [reflexivity | split; [constructor | exact Hx]].
  - intros [good [ys [bad [rest [-> [Hgood Hbad]]]]]].
    induction Hgood as [| x y good ys Hx _ IH]; cbn [app mapM].
    + rewrite Hbad. reflexivity.
    + rewrite Hx. cbn [bind]. rewrite IH. reflexivity.
Qed.

(** X6. Parsing succeeds exactly when every line validates, and then it
    returns one record for each line, in the order of the lines. *)
Theorem X6_parse_success (data : jsstring) (records : list ScoredRecord) :
  parseData data = Normal records <->
  Forall2 (fun line r =>
             validateScoreAndRecord (scoreStr line) (recordStr line) = Normal r)
          (lines data) records.
Proof.
  rewrite parseData_mapM, mapM_Normal.
  split; intros H; induction H; constructor; try assumption.
  - rewrite <- parseLine_validate. assumption.
  - rewrite parseLine_validate. assumption.
Qed.

(** X7. Parsing fails fast: it ends the process exactly when some line
    does not validate, with the status and the diagnostic of the first
    such line, whatever the lines after it are. *)
Theorem X7_parse_fails_fast (data : jsstring) (status : Z) (stderr : string) :
  parseData data = Exit status stderr <->
  exists (valid : list jsstring) (records : list ScoredRecord)
         (invalid : jsstring) (rest : list jsstring),
    lines data = valid ++ invalid :: rest
    /\ Forall2 (fun line r => parseLine line = Normal r) valid records
    /\ parseLine invalid = Exit status stderr.
Proof. rewrite parseData_mapM. apply mapM_Exit. Qed.

Lemma validateScoreAndRecord_kinds (scoreStr recordStr : jsstring) :
  (exists r, validateScoreAndRecord scoreStr recordStr = Normal r)
  \/ validateScoreAndRecord scoreStr recordStr = InvalidScore
  \/ validateScoreAndRecord scoreStr recordStr = InvalidRecordJSON
  \/ validateScoreAndRecord scoreStr recordStr = InvalidRecordShape
  \/ validateScoreAndRecord scoreStr recordStr = InvalidRecordMissingId.
Proof.
  unfold validateScoreAndRecord.
  destruct (isNaN (parseInt scoreStr (Some 10))); [right; left; reflexivity |].
  destruct (JSON_parse recordStr) as [v |]; [| right; right; left; reflexivity].
  destruct (negb (String.eqb (typeof v) "object") || Array_isArray v || isNull v);
    [right; right; right; left; reflexivity |].
  destruct v as [| | | | | o]; try (right; right; right; left; reflexivity).
  destruct (HasProperty o (js "id")); cbn [negb].
  - left. eexists. reflexivity.
  - right; right; right; right. reflexivity.
Qed.

Lemma parseData_kinds (data : jsstring) :
  (exists records, parseData data = Normal records)
  \/ parseData data = InvalidScore
  \/ parseData data = InvalidRecordJSON
  \/ parseData data = InvalidRecordShape
  \/ parseData data = InvalidRecordMissingId.
Proof.
  rewrite parseData_mapM. induction (lines data) as [| line l IH]; cbn [mapM].
  - left. eexists. reflexivity.
  - rewrite parseLine_validate.
    destruct (validateScoreAndRecord_kinds (scoreStr line) (recordStr line))
      as [[r ->] | [-> | [-> | [-> | ->]]]]; cbn [bind];
      [| right; left; reflexivity | right; right; left; reflexivity
       | right; right; right; left; reflexivity | right; right; right; right; reflexivity].
    destruct IH as [[rs ->] | [-> | [-> | [-> | ->]]]]; cbn [bind];
      [left; eexists; reflexivity | right; left; reflexivity
       | right; right; left; reflexivity | right; right; right; left; reflexivity
       | right; right; right; right; reflexivity].
Qed.

(** X8. Parsing a text returns the records or ends the process with one
    of the four validation errors, each with exit status 2; it never
    throws, so the promise of [parseDataFile] is rejected exactly when the
    file cannot be read, and with the error of that read. *)
Theorem X8_parse_outcomes (fs : FileSystem) (filePath : jsstring) :
  (forall data : jsstring,
      (exists records, parseData data = Normal records)
      \/ parseData data = InvalidScore
      \/ parseData data = InvalidRecordJSON
      \/ parseData data = InvalidRecordShape
      \/ parseData data = InvalidRecordMissingId)
  /\ (forall (status : Z) (stderr : string),
        parseDataFile fs filePath = Exit status stderr -> status = 2)
  /\ (forall error : Error,
        parseDataFile fs filePath = Throw error <-> fs filePath = inl error).
Proof.
  split; [exact parseData_kinds | split].
  - intros status stderr. unfold parseDataFile.
    destruct (fs filePath) as [e | data]; [discriminate |].
    destruct (parseData_kinds data) as [[rs ->] | [-> | [-> | [-> | ->]]]];
      try discriminate; intros [= <- _]; reflexivity.
  - intros error. unfold parseDataFile.
    destruct (fs filePath) as [e | data].
    + split; intros [= ->]; reflexivity.
    + split; [| discriminate].
      destruct (parseData_kinds data) as [[rs ->] | [-> | [-> | [-> | ->]]]];
        discriminate.
Qed.

(** ** How a run ends *)

(** The two endings with exit status 1. *)
Definition UsageError : Process :=
  Exited 1 (Stderr "Usage: node score.js <data_file> <count>").
Definition FileNotFound : Process :=
  Exited 1 (Stderr "File not found").

(** The count argument passes the test of [main]. *)
Definition validCount (countStr : jsstring) : Prop :=
  isNaN (parseInt countStr None) || leZero (parseInt countStr None) = false.

Lemma main_four {engine : Engine} (node script filePath countStr : jsstring)
  (fs : FileSystem) :
  main [node; script; filePath; countStr] fs
  = if isNaN (parseInt countStr None) || leZero (parseInt countStr None)
    then InvalidCount
    else tryBlock fs filePath (parseInt countStr None).
Proof. reflexivity. Qed.

Lemma main_not_four {engine : Engine} (argv : list jsstring) (fs : FileSystem) :
  length argv <> 4%nat -> main argv fs = UsageError.
Proof.
  intros Hlen.
  destruct argv as [| a0 [| a1 [| a2 [| a3 [| a4 rest]]]]]; try reflexivity.
  - exfalso. apply Hlen. reflexivity.
  - unfold main, Array_slice. cbn [length ToIntegerOrInfinity relativeIndex].
    set (n := length rest).
    replace (2 <? 0) with false by reflexivity.
    replace (Z.min 2 (Z.of_nat (S (S (S (S (S n))))))) with 2 by lia.
    replace (Z.max (Z.of_nat (S (S (S (S (S n))))) - 2) 0) with (Z.of_nat (S (S (S n))))
      by lia.
    rewrite Nat2Z.id. reflexivity.
Qed.

Lemma four_arguments (argv : list jsstring) :
  length argv = 4%nat ->
  exists node script filePath countStr, argv = [node; script; filePath; countStr].
Proof.
  destruct argv as [| a0 [| a1 [| a2 [| a3 [| a4 rest]]]]]; try discriminate.
  intros _. exists a0, a1, a2, a3. reflexivity.
Qed.

(** The four ways the [try] block ends. *)
Lemma tryBlock_cases {engine : Engine} (fs : FileSystem) (filePath : jsstring)
  (count : Number) :
  (exists data records,
      fs filePath = inr data /\ parseData data = Normal records
      /\ tryBlock fs filePath count
         = Exited 0 (Stdout (snd (getHighestRecords records count))))
  \/ (exists error,
        fs filePath = inl error /\ String.eqb (code error) "ENOENT" = true
        /\ tryBlock fs filePath count = FileNotFound)
  \/ (exists error,
        fs filePath = inl error /\ String.eqb (code error) "ENOENT" = false
        /\ tryBlock fs filePath count
           = Exited 2 (Stderr ("An error occurred: " ++ message error)))
  \/ (exists data stderr,
        fs filePath = inr data /\ parseData data = Exit 2 stderr
        /\ tryBlock fs filePath count = Exited 2 (Stderr stderr)).
Proof.
  unfold tryBlock, parseDataFile.
  destruct (fs filePath) as [error | data].
  - destruct (String.eqb (code error) "ENOENT") eqn:Hcode.
    + right; left. exists error. auto.
    + right; right; left. exists error. auto.
  - destruct (parseData_kinds data) as [[rs Hp] | [Hp | [Hp | [Hp | Hp]]]].
    + left. exists data, rs. rewrite Hp. auto.
    + right; right; right. exists data. eexists.
      split; [reflexivity | split; [exact Hp | rewrite Hp; reflexivity]].
    + right; right; right. exists data. eexists.
      split; [reflexivity | split; [exact Hp | rewrite Hp; reflexivity]].
    + right; right; right. exists data. eexists.
      split; [reflexivity | split; [exact Hp | rewrite Hp; reflexivity]].
    + right; right; right. exists data. eexists.
      split; [reflexivity | split; [exact Hp | rewrite Hp; reflexivity]].
Qed.

(** X9. A run ends in one of four ways: with exit status 0 and the
    result on standard output, with status 1 and the usage line, with
    status 1 and [File not found], or with status 2 and a diagnostic.
    Nothing reaches standard output unless the status is 0. *)
Theorem X9_exit_taxonomy {engine : Engine} (argv : list jsstring) (fs : FileSystem) :
  (exists highestRecords, main argv fs = Exited 0 (Stdout highestRecords))
  \/ main argv fs = UsageError
  \/ main argv fs = FileNotFound
  \/ (exists message, main argv fs = Exited 2 (Stderr message)).
Proof.
  destruct (Nat.eq_dec (length argv) 4) as [Hlen | Hlen].
  - destruct (four_arguments argv Hlen) as [node [script [filePath [countStr ->]]]].
    rewrite main_four.
    destruct (isNaN (parseInt countStr None) || leZero (parseInt countStr None)).
    + right; right; right. eexists. reflexivity.
    + destruct (tryBlock_cases fs filePath (parseInt countStr None))
        as [[data [rs [_ [_ ->]]]] | [[e [_ [_ ->]]] | [[e [_ [_ ->]]] | [d [m [_ [_ ->]]]]]]].
      * left. eexists. reflexivity.
      * right; right; left. reflexivity.
      * right; right; right. eexists. reflexivity.
      * right; right; right. eexists. reflexivity.
  - right; left. apply main_not_four. exact Hlen.
Qed.

(** X10. A run ends with exit status 1 in two cases only: the process
    was not given exactly two arguments, or it was given two, the count
    is valid and reading the file failed with the code [ENOENT]. A
    missing file with a count that is not valid is status 2. *)
Theorem X10_exit_status_1 {engine : Engine} (argv : list jsstring) (fs : FileSystem) :
  (main argv fs = UsageError <-> length argv <> 4%nat)
  /\ (main argv fs = FileNotFound <->
      exists node script filePath countStr error,
        argv = [node; script; filePath; countStr]
        /\ validCount countStr
        /\ fs filePath = inl error
        /\ code error = "ENOENT"%string)
  /\ forall output, main argv fs = Exited 1 output ->
       main argv fs = UsageError \/ main argv fs = FileNotFound.
Proof.
  assert (Hfour : forall node script filePath countStr,
             argv = [node; script; filePath; countStr] ->
             main argv fs <> UsageError
             /\ (main argv fs = FileNotFound ->
                 validCount countStr
                 /\ exists error, fs filePath = inl error /\ code error = "ENOENT"%string)).
  { intros node script filePath countStr ->. rewrite main_four. unfold validCount.
    destruct (isNaN (parseInt countStr None) || leZero (parseInt countStr None)).
    - split; discriminate.
    - destruct (tryBlock_cases fs filePath (parseInt countStr None))
        as [[data [rs [_ [_ ->]]]] | [[e [He [Hc ->]]] | [[e [_ [_ ->]]] | [d [m [_ [_ ->]]]]]]];
        split; try discriminate.
      intros _. split; [reflexivity |]. exists e. split; [exact He |].
      apply String.eqb_eq. exact Hc. }
  split; [| split].
  - split.
    + intros Hm Hlen.
      destruct (four_arguments argv Hlen) as [node [script [filePath [countStr Ha]]]].
      exact (proj1 (Hfour _ _ _ _ Ha) Hm).
    + apply main_not_four.
  - split.
    + intros Hm.
      destruct (Nat.eq_dec (length argv) 4) as [Hlen | Hlen].
      * destruct (four_arguments argv Hlen) as [node [script [filePath [countStr Ha]]]].
        destruct (proj2 (Hfour _ _ _ _ Ha) Hm) as [Hc [e [He Hcode]]].
        exists node, script, filePath, countStr, e. auto.
      * rewrite (main_not_four argv fs Hlen) in Hm. discriminate Hm.
    + intros [node [script [filePath [countStr [e [-> [Hc [He Hcode]]]]]]]].
      rewrite main_four. unfold validCount in Hc. rewrite Hc.
      unfold tryBlock, parseDataFile. rewrite He, Hcode. reflexivity.
  - intros output Hm.
    destruct (Nat.eq_dec (length argv) 4) as [Hlen | Hlen].
    + destruct (four_arguments argv Hlen) as [node [script [filePath [countStr ->]]]].
      rewrite main_four in *.
      destruct (isNaN (parseInt countStr None) || leZero (parseInt countStr None)).
      * discriminate Hm.
      * destruct (tryBlock_cases fs filePath (parseInt countStr None))
          as [[data [rs [_ [_ Ht]]]] | [[e [_ [_ Ht]]] | [[e [_ [_ Ht]]] | [d [m [_ [_ Ht]]]]]]];
          rewrite Ht in *; try discriminate Hm.
        right. reflexivity.
    + left. apply main_not_four. exact Hlen.
Qed.

Lemma getHighestRecords_nil {engine : Engine} (count : Number) :
  getHighestRecords [] count = ([], []).
Proof.
  unfold getHighestRecords.
  rewrite (sort_descending []) by constructor.
  rewrite Array_slice_from_0. simpl. rewrite firstn_nil. reflexivity.
Qed.

(** X11. A run ends with exit status 0 exactly when it was given two
    arguments, the count is valid, the file could be read and every
    line of it was accepted; what it prints is then the result of
    [getHighestRecords] on the parsed records and the parsed count. *)
Theorem X11_exit_status_0 {engine : Engine} (argv : list jsstring) (fs : FileSystem)
  (output : Output) :
  main argv fs = Exited 0 output <->
  exists node script filePath countStr data records,
    argv = [node; script; filePath; countStr]
    /\ validCount countStr
    /\ fs filePath = inr data
    /\ parseData data = Normal records
    /\ output = Stdout (snd (getHighestRecords records (parseInt countStr None))).
Proof.
  split.
  - intros Hm.
    destruct (Nat.eq_dec (length argv) 4) as [Hlen | Hlen].
    + destruct (four_arguments argv Hlen) as [node [script [filePath [countStr ->]]]].
      rewrite main_four in Hm.
      destruct (isNaN (parseInt countStr None) || leZero (parseInt countStr None)) eqn:Hc.
      * discriminate Hm.
      * destruct (tryBlock_cases fs filePath (parseInt countStr None))
          as [[data [rs [Hf [Hp Ht]]]] | [[e [_ [_ Ht]]] | [[e [_ [_ Ht]]] | [d [m [_ [_ Ht]]]]]]];
          rewrite Ht in Hm; try discriminate Hm.
        exists node, script, filePath, countStr, data, rs.
        repeat split; try assumption. congruence.
    + rewrite (main_not_four argv fs Hlen) in Hm. discriminate Hm.
  - intros [node [script [filePath [countStr [data [rs [-> [Hc [Hf [Hp ->]]]]]]]]]].
    rewrite main_four. unfold validCount in Hc. rewrite Hc.
    unfold tryBlock, parseDataFile. rewrite Hf, Hp. reflexivity.
Qed.

(** X12. A file that is empty or holds white space only is not an
    error: with a valid count the run prints the empty result and ends
    with exit status 0. *)
Theorem X12_blank_file {engine : Engine} (node script filePath countStr data : jsstring)
  (fs : FileSystem) :
  fs filePath = inr data ->
  forallb isWhiteSpace data = true ->
  validCount countStr ->
  main [node; script; filePath; countStr] fs = Exited 0 (Stdout []).
Proof.
  intros Hf Hw Hc.
  rewrite main_four. unfold validCount in Hc. rewrite Hc.
  unfold tryBlock, parseDataFile. rewrite Hf.
  assert (Hp : parseData data = Normal []).
  { rewrite parseData_mapM, (lines_whitespace data Hw). reflexivity. }
  rewrite Hp, getHighestRecords_nil. reflexivity.
Qed.

Lemma X12_witness :
  disk (js "data.txt") (js "  ") (js "data.txt") = inr (js "  ")
  /\ forallb isWhiteSpace (js "  ") = true
  /\ validCount (js "3")
  /\ main (engine := insertionRight) (argvOf "data.txt" "3") (disk (js "data.txt") (js "  "))
     = Exited 0 (Stdout []).
Proof.
  split; [reflexivity | split; [reflexivity | split; [reflexivity |]]].
  exact (X12_blank_file (engine := insertionRight)
           (js "node") (js "score.js") (js "data.txt") (js "3") (js "  ")
           (disk (js "data.txt") (js "  ")) Logic.eq_refl Logic.eq_refl Logic.eq_refl).
Defined.

(** ** The ranking *)

Lemma StronglySorted_across {A : Type} (R : A -> A -> Prop) (l1 l2 : list A) :
  StronglySorted R (l1 ++ l2) ->
  forall x y, In x l1 -> In y l2 -> R x y.
Proof.
  induction l1 as [| a l1 IH]; intros Hs x y Hx Hy; [destruct Hx |].
  simpl in Hs. inversion Hs as [| ? ? Hs' Hall]; subst.
  destruct Hx as [<- | Hx].
  - rewrite Forall_forall in Hall. apply Hall. apply in_or_app. right. exact Hy.
  - apply IH; assumption.
Qed.

Lemma HasProperty_Get (O : Object) (P : jsstring) :
  HasProperty O P = true -> exists v, Get O P = Some v.
Proof.
  induction O as [| [k v] O IH]; simpl; [discriminate |].
  destruct (eqb k P).
  - intros _. exists v. reflexivity.
  - simpl. exact IH.
Qed.

(** X13. The result is cut from the front of the sorted array: the
    array splits into the records that were kept and those that were
    omitted, and no omitted record has a score above that of a record
    that was kept. *)
Theorem X13_top_scores {engine : Engine} (records : list ScoredRecord) (count : Number) :
  Forall validScore records ->
  exists kept omitted,
    fst (getHighestRecords records count) = kept ++ omitted
    /\ snd (getHighestRecords records count) = Array_map kept toEntry
    /\ Permutation records (kept ++ omitted)
    /\ forall x y, In x kept -> In y omitted -> lessEq (score y) (score x) = true.
Proof.
  intros Hv. unfold getHighestRecords. simpl fst. simpl snd.
  rewrite Array_slice_from_0.
  set (sorted := Array_sort records descending).
  set (k := Z.to_nat (relativeIndex (Z.of_nat (length sorted)) (ToIntegerOrInfinity count))).
  exists (firstn k sorted), (skipn k sorted).
  rewrite firstn_skipn.
  split; [reflexivity | split; [reflexivity | split]].
  - apply (sort_permutation _ _ _ (sort_descending_order records Hv)).
  - pose proof (sorted_records_nonIncreasing records Hv) as Hs.
    fold sorted in Hs. unfold nonIncreasing in Hs.
    rewrite <- (firstn_skipn k sorted) in Hs.
    intros x y Hx Hy.
    exact (StronglySorted_across _ _ _ Hs x y Hx Hy).
Qed.

Lemma X13_witness :
  Forall validScore records1
  /\ exists kept omitted,
       fst (getHighestRecords (engine := insertionRight) records1 (Fin 2)) = kept ++ omitted
       /\ snd (getHighestRecords (engine := insertionRight) records1 (Fin 2))
          = Array_map kept toEntry
       /\ Permutation records1 (kept ++ omitted)
       /\ forall x y, In x kept -> In y omitted -> lessEq (score y) (score x) = true.
Proof.
  assert (Hv : Forall validScore records1) by (repeat constructor).
  split; [exact Hv |].
  exact (X13_top_scores (engine := insertionRight) records1 (Fin 2) Hv).
Defined.

(** X14. A smaller count gives a prefix of what a larger count gives:
    for [0 <= c1 <= c2] the result for [c1] is the first [c1] entries of
    the result for [c2]. *)
Theorem X14_count_prefix {engine : Engine} (records : list ScoredRecord) (c1 c2 : Z) :
  0 <= c1 -> c1 <= c2 ->
  snd (getHighestRecords records (Fin c1))
  = firstn (Z.to_nat c1) (snd (getHighestRecords records (Fin c2))).
Proof.
  intros H1 H2. unfold getHighestRecords. simpl snd.
  rewrite !Array_slice_from_0. unfold Array_map.
  set (sorted := Array_sort records descending).
  cbn [ToIntegerOrInfinity relativeIndex].
  replace (c1 <? 0) with false by (symmetry; apply Z.ltb_ge; lia).
  replace (c2 <? 0) with false by (symmetry; apply Z.ltb_ge; lia).
  rewrite <- !firstn_map, firstn_firstn.
  set (l := map toEntry sorted).
  assert (Hlen : length l = length sorted) by apply length_map.
  rewrite <- Hlen.
  destruct (Z.le_ge_cases c1 (Z.of_nat (length l))) as [Hle | Hge].
  - f_equal. lia.
  - rewrite !firstn_all2; [reflexivity | lia | lia].
Qed.

Lemma X14_witness :
  0 <= 1 /\ 1 <= 2
  /\ snd (getHighestRecords (engine := insertionRight) records1 (Fin 1))
     = firstn (Z.to_nat 1) (snd (getHighestRecords (engine := insertionRight) records1 (Fin 2))).
Proof.
  split; [lia | split; [lia |]].
  apply (X14_count_prefix (engine := insertionRight) records1 1 2); lia.
Defined.

(** X15. Every entry of the result of a parsed file carries the score
    of one of the parsed records and the value under that record's
    [id]; the [id] of an entry is never [undefined]. *)
Theorem X15_entries_have_id {engine : Engine} (data : jsstring)
  (records : list ScoredRecord) (count : Number) :
  parseData data = Normal records ->
  Forall (fun entry : RankedEntry =>
            exists r v, In r records
                        /\ score entry = score r
                        /\ Get (record r) (js "id") = Some v
                        /\ record entry = Some v)
         (snd (getHighestRecords records count)).
Proof.
  intros Hp.
  pose proof (parseData_validScore data records Hp) as Hv.
  unfold getHighestRecords. simpl snd. rewrite Array_slice_from_0.
  apply Forall_forall. intros entry He.
  unfold Array_map in He. apply in_map_iff in He. destruct He as [r [<- Hr]].
  apply In_firstn_In in Hr.
  apply (Permutation_in r
           (Permutation_sym (sort_permutation _ _ _ (sort_descending_order records Hv)))) in Hr.
  apply parseData_Normal in Hp.
  assert (Hid : HasProperty (record r) (js "id") = true).
  { clear Hv. induction Hp as [| line r' l rs Hline _ IH]; [destruct Hr |].
    destruct Hr as [-> | Hr]; [| exact (IH Hr)].
    apply parseLine_Normal, validateScoreAndRecord_Normal in Hline. apply Hline. }
  destruct (HasProperty_Get _ _ Hid) as [v Hget].
  exists r, v. simpl. auto.
Qed.

Lemma X15_witness :
  parseData example1 = Normal records1
  /\ Forall (fun entry : RankedEntry =>
               exists r v, In r records1
                           /\ score entry = score r
                           /\ Get (record r) (js "id") = Some v
                           /\ record entry = Some v)
            (snd (getHighestRecords (engine := insertionRight) records1 (Fin 2))).
Proof.
  split; [reflexivity |].
  exact (X15_entries_have_id (engine := insertionRight) example1 records1 (Fin 2)
           Logic.eq_refl).
Defined.

(** The record or entry has the score [x], as [===] tells. *)
Definition sameScore {R : Type} (x : Number) (r : Scored R) : bool :=
  strictEquals x (score r).

Lemma eqCF_descending (a b : ScoredRecord) :
  validScore a -> validScore b -> eqCF descending a b = sameScore (score a) b.
Proof.
  intros Ha Hb. unfold eqCF, sameScore, strictEquals.
  rewrite ltCF_descending, gtCF_descending by assumption.
  unfold validScore in Ha, Hb. rewrite Ha, Hb. simpl. apply andb_comm.
Qed.

Lemma filter_eqCF_sameScore (x : ScoredRecord) (l : list ScoredRecord) :
  validScore x -> Forall validScore l ->
  filter (eqCF descending x) l = filter (sameScore (score x)) l.
Proof.
  intros Hx Hl. apply filter_ext_in. intros r Hr.
  apply eqCF_descending; [exact Hx |].
  rewrite Forall_forall in Hl. apply Hl. exact Hr.
Qed.

Lemma filter_firstn {A : Type} (p : A -> bool) (k : nat) (l : list A) :
  exists m, filter p (firstn k l) = firstn m (filter p l).
Proof.
  revert k. induction l as [| a l IH]; intros k.
  - exists O. rewrite firstn_nil. reflexivity.
  - destruct k as [| k].
    + exists O. reflexivity.
    + destruct (IH k) as [m Hm]. simpl. destruct (p a).
      * exists (S m). simpl. rewrite Hm. reflexivity.
      * exists m. exact Hm.
Qed.

Lemma filter_Array_map {A B : Type} (p : B -> bool) (f : A -> B) (l : list A) :
  filter p (Array_map l f) = Array_map (filter (fun a => p (f a)) l) f.
Proof.
  unfold Array_map. induction l as [| a l IH]; simpl; [reflexivity |].
  destruct (p (f a)); simpl; rewrite IH; reflexivity.
Qed.

(** X16. Records with the same score keep the order of their lines: in
    the sorted array they stand as they stood in the input, and the
    entries of the result with that score are the first of them, in
    that order. *)
Theorem X16_ties_in_line_order {engine : Engine} (records : list ScoredRecord)
  (count : Number) (x : ScoredRecord) :
  Forall validScore records -> In x records ->
  filter (sameScore (score x)) (fst (getHighestRecords records count))
  = filter (sameScore (score x)) records
  /\ exists m,
       filter (sameScore (score x)) (snd (getHighestRecords records count))
       = firstn m (Array_map (filter (sameScore (score x)) records) toEntry).
Proof.
  intros Hv Hx.
  assert (Hvx : validScore x) by (rewrite Forall_forall in Hv; apply Hv; exact Hx).
  assert (Hst : filter (sameScore (score x)) (Array_sort records descending)
                = filter (sameScore (score x)) records).
  { rewrite <- !filter_eqCF_sameScore;
      [| exact Hvx | exact Hv | exact Hvx | apply Forall_validScore_sorted; exact Hv].
    apply (sort_stable _ _ _ (sort_descending_order records Hv)). exact Hx. }
  unfold getHighestRecords. simpl fst. simpl snd.
  split; [exact Hst |].
  rewrite Array_slice_from_0, filter_Array_map.
  match goal with
  | |- context [filter ?p (firstn ?k ?l)] => destruct (filter_firstn p k l) as [m Hm]
  end.
  exists m. rewrite Hm. unfold Array_map. rewrite <- firstn_map.
  f_equal. f_equal. rewrite <- Hst. apply filter_ext. intros a. reflexivity.
Qed.

Lemma X16_witness :
  Forall validScore recordsTied
  /\ In {| score := Fin 10; record := idOf "a" |} recordsTied
  /\ filter (sameScore (Fin 10))
       (fst (getHighestRecords (engine := insertionRight) recordsTied (Fin 2)))
     = [ {| score := Fin 10; record := idOf "a" |};
         {| score := Fin 10; record := idOf "c" |} ]
  /\ exists m,
       filter (sameScore (Fin 10))
         (snd (getHighestRecords (engine := insertionRight) recordsTied (Fin 2)))
       = firstn m (Array_map [ {| score := Fin 10; record := idOf "a" |};
                               {| score := Fin 10; record := idOf "c" |} ] toEntry).
Proof.
  assert (Hv : Forall validScore recordsTied) by (repeat constructor).
  assert (Hx : In {| score := Fin 10; record := idOf "a" |} recordsTied)
    by (left; reflexivity).
  split; [exact Hv | split; [exact Hx |]].
  exact (X16_ties_in_line_order (engine := insertionRight) recordsTied (Fin 2)
           {| score := Fin 10; record := idOf "a" |} Hv Hx).
Defined.

(** X17. The order of the lines matters among equal scores only: two
    inputs with the same records, in which the records of each score
    stand in the same order, give the same sorted array and the same
    result. *)
Theorem X17_line_order_among_ties_only {engine : Engine}
  (records records' : list ScoredRecord) (count : Number) :
  Forall validScore records ->
  Permutation records records' ->
  (forall x, In x records ->
     filter (sameScore (score x)) records' = filter (sameScore (score x)) records) ->
  getHighestRecords records' count = getHighestRecords records count.
Proof.
  intros Hv Hp Hties.
  assert (Hv' : Forall validScore records').
  { rewrite Forall_forall in *. intros r Hr. apply Hv.
    apply (Permutation_in r (Permutation_sym Hp)). exact Hr. }
  assert (Hs : Array_sort records' descending = Array_sort records descending).
  { apply (SortOrder_unique descending records).
    - apply descending_consistent. intros r Hr.
      rewrite Forall_forall in Hv. apply Hv. exact Hr.
    - pose proof (sort_descending_order records' Hv') as Ho. split.
      + apply (Permutation_trans Hp). apply (sort_permutation _ _ _ Ho).
      + apply (sort_sorted _ _ _ Ho).
      + intros x Hx.
        assert (Hvx : validScore x) by (rewrite Forall_forall in Hv; apply Hv; exact Hx).
        rewrite (sort_stable _ _ _ Ho) by (apply (Permutation_in x Hp); exact Hx).
        rewrite !filter_eqCF_sameScore by assumption.
        apply Hties. exact Hx.
    - apply sort_descending_order. exact Hv. }
  unfold getHighestRecords. rewrite Hs. reflexivity.
Qed.

Lemma X17_witness :
  Forall validScore records1
  /\ Permutation records1 (rev records1)
  /\ getHighestRecords (engine := insertionRight) (rev records1) (Fin 2)
     = getHighestRecords (engine := insertionRight) records1 (Fin 2).
Proof.
  assert (Hv : Forall validScore records1) by (repeat constructor).
  split; [exact Hv | split; [apply Permutation_rev |]].
  apply (X17_line_order_among_ties_only (engine := insertionRight)
           records1 (rev records1) (Fin 2) Hv (Permutation_rev records1)).
  intros x [<- | [<- | [<- | []]]]; reflexivity.
Defined.

(** X18. A run ends with exit status 2 in three cases only, each with
    its own line on standard error: the count is not valid; reading the
    file failed with a code other than [ENOENT]; a line of the file was
    rejected, and the line written is the diagnostic of that line. *)
Theorem X18_exit_status_2 {engine : Engine} (argv : list jsstring) (fs : FileSystem)
  (output : Output) :
  main argv fs = Exited 2 output <->
  exists node script filePath countStr,
    argv = [node; script; filePath; countStr]
    /\ ((~ validCount countStr /\ output = Stderr "Invalid count value")
        \/ (validCount countStr
            /\ ((exists error, fs filePath = inl error
                               /\ code error <> "ENOENT"%string
                               /\ output = Stderr ("An error occurred: " ++ message error))
                \/ (exists data stderr, fs filePath = inr data
                                        /\ parseData data = Exit 2 stderr
                                        /\ output = Stderr stderr)))).
Proof.
  split.
  - intros Hm.
    destruct (Nat.eq_dec (length argv) 4) as [Hlen | Hlen].
    + destruct (four_arguments argv Hlen) as [node [script [filePath [countStr ->]]]].
      exists node, script, filePath, countStr. split; [reflexivity |].
      rewrite main_four in Hm. unfold validCount.
      destruct (isNaN (parseInt countStr None) || leZero (parseInt countStr None)) eqn:Hc.
      * left. unfold InvalidCount in Hm. split; [discriminate | congruence].
      * right. split; [reflexivity |].
        destruct (tryBlock_cases fs filePath (parseInt countStr None))
          as [[data [rs [_ [_ Ht]]]] | [[e [_ [_ Ht]]] | [[e [Hf [Hcode Ht]]] | [d [m [Hf [Hp Ht]]]]]]];
          rewrite Ht in Hm; try discriminate Hm.
        -- left. exists e. split; [exact Hf | split; [| congruence]].
           apply String.eqb_neq. exact Hcode.
        -- right. exists d, m. split; [exact Hf | split; [exact Hp | congruence]].
    + rewrite (main_not_four argv fs Hlen) in Hm. discriminate Hm.
  - intros [node [script [filePath [countStr [-> H]]]]].
    rewrite main_four. unfold validCount in H.
    destruct H as [[Hc ->] | [Hc H]].
    + destruct (isNaN (parseInt countStr None) || leZero (parseInt countStr None));
        [reflexivity | exfalso; apply Hc; reflexivity].
    + rewrite Hc. unfold tryBlock, parseDataFile.
      destruct H as [[e [Hf [Hcode ->]]] | [d [m [Hf [Hp ->]]]]]; rewrite Hf.
      * apply String.eqb_neq in Hcode. rewrite Hcode. reflexivity.
      * rewrite Hp. reflexivity.
Qed.
